(** * Document manager (script.js): record store, filter and derived indices

    A shallow embedding of the [DocumentManager] class of [script.js]:
    the localStorage fallback of the record store, the filter-and-sort of
    [loadEntries], the upload/save path of [handleUpload], the tag index of
    [loadTags] and the calendar test of [doesDateHaveEntries] and
    [renderCalendar].

    Modelling conventions.
    - A JS string is a [string]; the model covers ASCII text, so
      [toLowerCase] folds the letters A-Z and leaves every other character
      as it is, and [trim] strips the ASCII white space.
    - A JS number that holds an id, a size or a time value is a [Z]; a
      number that may be [NaN] is an [option Z] whose [None] is [NaN].
      Ids are exact integers (the range in which [n + 1] is exact in JS).
    - An absent ([undefined]) property is [None].
    - [localStorage] holds either nothing under the key or the serialized
      array; the model keeps the parsed array ([JSON.parse] of what
      [JSON.stringify] wrote).
    - An [async] method is a computation over the world state that either
      returns or throws.
    - The store operations are given twice: first for writes that fit in
      the quota of the origin, then, in [Module Quota], for a host that may
      refuse a write with [QuotaExceededError]; the first are the second
      for a host that refuses nothing. *)

From Stdlib Require Import ZArith String Ascii List Bool Lia.
From Stdlib Require Import Sorting.Sorted Sorting.Permutation.
From Stdlib Require Import Structures.OrderedTypeEx.
From stdpp Require Import base list.

Import ListNotations.
Local Open Scope string_scope.
Local Open Scope Z_scope.
Local Open Scope list_scope.

(** ** Host library: strings *)

Module JsString.

Definition lower_char (c : ascii) : ascii :=
  let n := N_of_ascii c in
  if ((65 <=? n) && (n <=? 90))%N then ascii_of_N (n + 32) else c.

(** [String.prototype.toLowerCase] *)
Fixpoint toLowerCase (s : string) : string :=
  match s with
  | EmptyString => EmptyString
  | String c r => String (lower_char c) (toLowerCase r)
  end.

(** [String.prototype.startsWith] *)
Definition startsWith (s p : string) : bool := String.prefix p s.

(** [String.prototype.includes] *)
Fixpoint includes (s t : string) : bool :=
  if String.prefix t s then true
  else match s with
       | EmptyString => false
       | String _ r => includes r t
       end.

Definition is_space (c : ascii) : bool :=
  let n := N_of_ascii c in
  ((9 <=? n) && (n <=? 13) || (n =? 32))%N.

Fixpoint trimStart (s : string) : string :=
  match s with
  | EmptyString => EmptyString
  | String c r => if is_space c then trimStart r else s
  end.

Fixpoint trimEnd (s : string) : string :=
  match s with
  | EmptyString => EmptyString
  | String c r =>
      match trimEnd r with
      | EmptyString => if is_space c then EmptyString else String c EmptyString
      | r' => String c r'
      end
  end.

(** [String.prototype.trim] *)
Definition trim (s : string) : string := trimEnd (trimStart s).

(** [s.split(sep)] for a one-character separator: the pieces between
    the separators, in order; never empty. *)
Fixpoint split (sep : ascii) (s : string) : list string :=
  match s with
  | EmptyString => [EmptyString]
  | String c r =>
      if Ascii.eqb c sep then EmptyString :: split sep r
      else match split sep r with
           | p :: ps => String c p :: ps
           | [] => [String c EmptyString]
           end
  end.

(** [s.split(sep)[0]] *)
Definition split0 (sep : ascii) (s : string) : string :=
  match split sep s with
  | p :: _ => p
  | [] => EmptyString
  end.

(** Truthiness of a string value: only the empty string is falsy. *)
Definition truthy (s : string) : bool := negb (String.eqb s "").

(** The relational reading of "t occurs in s". *)
Definition substring_of (t s : string) : Prop :=
  exists pre post, s = (pre ++ t ++ post)%string.

End JsString.

(** ** Host library: arrays and sets *)

Module JsArray.

Section Generic.
Context {A : Type}.

(** [Array.prototype.findIndex]; [None] is the index -1. *)
Fixpoint findIndex (p : A -> bool) (l : list A) : option nat :=
  match l with
  | [] => None
  | x :: r => if p x then Some O else option_map S (findIndex p r)
  end.

(** Placement step of a stable sort.  The comparator returns a number;
    [None] is [NaN], which [Array.prototype.sort] reads as [+0]. *)
Definition goes_after (cmp : A -> A -> option Z) (x y : A) : bool :=
  match cmp x y with
  | Some v => 0 <? v
  | None => false
  end.

Fixpoint insert_sorted (cmp : A -> A -> option Z) (x : A) (l : list A)
  : list A :=
  match l with
  | [] => [x]
  | y :: r => if goes_after cmp x y then y :: insert_sorted cmp x r
              else x :: y :: r
  end.

(** [Array.prototype.sort(cmp)]: the sort is stable, so for a consistent
    comparator its result is the one of any stable sort. *)
Definition sort (cmp : A -> A -> option Z) (l : list A) : list A :=
  fold_right (insert_sorted cmp) [] l.
End Generic.

(** The comparator of [sort()] without argument, on strings: code unit
    order. *)
Definition defaultCompare (x y : string) : option Z :=
  if String.ltb x y then Some (-1)
  else if String.ltb y x then Some 1
  else Some 0.

End JsArray.

Module JsSet.

(** A [Set] of strings, in insertion order. *)
Definition t := list string.

Definition empty : t := [].

Definition has (s : t) (x : string) : bool := existsb (String.eqb x) s.

Definition add (s : t) (x : string) : t :=
  if has s x then s else s ++ [x].

(** [Array.from(set)] *)
Definition toArray (s : t) : list string := s.

End JsSet.

(** ** Host library: numbers and dates *)

Module JsNumber.

Definition digit_val (radix : Z) (c : ascii) : option Z :=
  let n := Z.of_N (N_of_ascii c) in
  let v := if (48 <=? n) && (n <=? 57) then Some (n - 48)
           else if (97 <=? n) && (n <=? 122) then Some (n - 87)
           else if (65 <=? n) && (n <=? 90) then Some (n - 55)
           else None in
  match v with
  | Some d => if d <? radix then Some d else None
  | None => None
  end.

(** The longest prefix of digits, read in the radix; [None] when it is
    empty. *)
Fixpoint read_digits (radix : Z) (acc : option Z) (s : string) : option Z :=
  match s with
  | EmptyString => acc
  | String c r =>
      match digit_val radix c with
      | Some d =>
          read_digits radix
            (Some (match acc with Some a => a * radix + d | None => d end)) r
      | None => acc
      end
  end.

Definition strip_hex_prefix (s : string) : option string :=
  match s with
  | String "0" (String "x" r) => Some r
  | String "0" (String "X" r) => Some r
  | _ => None
  end.

Definition read_unsigned (s : string) : option Z :=
  match strip_hex_prefix s with
  | Some r => read_digits 16 None r
  | None => read_digits 10 None s
  end.

(** [parseInt(s)] without radix; [None] is [NaN]. *)
Definition parseInt (s : string) : option Z :=
  match JsString.trimStart s with
  | String "-" r => option_map Z.opp (read_unsigned r)
  | String "+" r => read_unsigned r
  | r => read_unsigned r
  end.

(** [parseInt(v)] of a value that is a string or [null]. *)
Definition parseInt_of (v : option string) : option Z :=
  match v with
  | Some s => parseInt s
  | None => None
  end.

(** [a === b] on an integer and a number that may be [NaN]. *)
Definition strict_eq (a : Z) (b : option Z) : bool :=
  match b with
  | Some n => a =? n
  | None => false
  end.

(** [Math.max(x, ...xs)] on at least one argument. *)
Definition Math_max (x : Z) (xs : list Z) : Z := fold_left Z.max xs x.

End JsNumber.

Module JsDate.

Definition msPerDay : Z := 86400000.
Definition msPerMinute : Z := 60000.
Definition maxTime : Z := 8640000000000000.

(** [TimeClip] *)
Definition TimeClip (t : Z) : option Z :=
  if Z.abs t <=? maxTime then Some t else None.

(** Day number of the civil date [y]-[m]-[d] ([m] from 1), counted from
    1970-01-01, in the proleptic Gregorian calendar. *)
Definition days_from_civil (y m d : Z) : Z :=
  let y' := if m <=? 2 then y - 1 else y in
  let era := y' / 400 in
  let yoe := y' - era * 400 in
  let mp := if 2 <? m then m - 3 else m + 9 in
  let doy := (153 * mp + 2) / 5 + d - 1 in
  let doe := yoe * 365 + yoe / 4 - yoe / 100 + doy in
  era * 146097 + doe - 719468.

(** The civil date (year, month from 1, day) of a day number. *)
Definition civil_from_days (z : Z) : Z * Z * Z :=
  let z' := z + 719468 in
  let era := z' / 146097 in
  let doe := z' - era * 146097 in
  let yoe := (doe - doe / 1460 + doe / 36524 - doe / 146096) / 365 in
  let doy := doe - (365 * yoe + yoe / 4 - yoe / 100) in
  let mp := (5 * doy + 2) / 153 in
  let d := doy - (153 * mp + 2) / 5 + 1 in
  let m := if mp <? 10 then mp + 3 else mp - 9 in
  let y := yoe + era * 400 in
  (if m <=? 2 then y + 1 else y, m, d).

Definition digit_char (d : Z) : ascii := ascii_of_N (48 + Z.to_N d).

(** The last [w] decimal digits of [n], most significant first. *)
Fixpoint pad (w : nat) (n : Z) (acc : string) : string :=
  match w with
  | O => acc
  | S w' => pad w' (n / 10) (String (digit_char (n mod 10)) acc)
  end.

Definition year_string (y : Z) : string :=
  if (0 <=? y) && (y <=? 9999) then pad 4 y ""
  else String (if y <? 0 then "-"%char else "+"%char) (pad 6 (Z.abs y) "").

(** The date part [YYYY-MM-DD] of [toISOString]: the UTC day of the time
    value. *)
Definition iso_date (t : Z) : string :=
  let '(y, m, d) := civil_from_days (t / msPerDay) in
  (year_string y ++ "-" ++ pad 2 m "" ++ "-" ++ pad 2 d "")%string.

Definition iso_time (t : Z) : string :=
  let ms := t mod msPerDay in
  (pad 2 (ms / 3600000) "" ++ ":" ++ pad 2 (ms / 60000 mod 60) "" ++ ":"
     ++ pad 2 (ms / 1000 mod 60) "" ++ "." ++ pad 3 (ms mod 1000) "")%string.

(** [Date.prototype.toISOString] of a valid time value. *)
Definition toISOString (t : Z) : string :=
  (iso_date t ++ "T" ++ iso_time t ++ "Z")%string.

(** Exactly [n] decimal digits at the head of [s]. *)
Fixpoint take_digits (n : nat) (acc : Z) (s : string) : option (Z * string) :=
  match n with
  | O => Some (acc, s)
  | S n' =>
      match s with
      | String c r =>
          match JsNumber.digit_val 10 c with
          | Some d => take_digits n' (acc * 10 + d) r
          | None => None
          end
      | EmptyString => None
      end
  end.

Definition expect (c : ascii) (s : string) : option string :=
  match s with
  | String c' r => if Ascii.eqb c c' then Some r else None
  | EmptyString => None
  end.

Definition take_year (s : string) : option (Z * string) :=
  match s with
  | String "+" r => take_digits 6 0 r
  | String "-" r =>
      match take_digits 6 0 r with
      | Some (y, r') => if y =? 0 then None else Some (- y, r')
      | None => None
      end
  | _ => take_digits 4 0 s
  end.

(** The calendar has a day [d] in the month [m] (from 1) of the year [y]:
    the date is the civil date of its own day number. *)
Definition date_exists (y m d : Z) : bool :=
  let '(y', m', d') := civil_from_days (days_from_civil y m d) in
  (y' =? y) && (m' =? m) && (d' =? d).

Definition bind_opt {A B} (o : option A) (k : A -> option B) : option B :=
  match o with
  | Some a => k a
  | None => None
  end.

(** The time value of [new Date(s)] for a string in the format that
    [toISOString] writes, [YYYY-MM-DDTHH:mm:ss.sssZ] with a four-digit or a
    signed six-digit year; [None] ([NaN], an invalid date) for every other
    string.  The host accepts more formats than this one. *)
Definition parse (s : string) : option Z :=
  bind_opt (take_year s) (fun '(y, s) =>
  bind_opt (expect "-" s) (fun s =>
  bind_opt (take_digits 2 0 s) (fun '(m, s) =>
  bind_opt (expect "-" s) (fun s =>
  bind_opt (take_digits 2 0 s) (fun '(d, s) =>
  bind_opt (expect "T" s) (fun s =>
  bind_opt (take_digits 2 0 s) (fun '(hh, s) =>
  bind_opt (expect ":" s) (fun s =>
  bind_opt (take_digits 2 0 s) (fun '(mi, s) =>
  bind_opt (expect ":" s) (fun s =>
  bind_opt (take_digits 2 0 s) (fun '(ss, s) =>
  bind_opt (expect "." s) (fun s =>
  bind_opt (take_digits 3 0 s) (fun '(ms, s) =>
  bind_opt (expect "Z" s) (fun s =>
    if String.eqb s ""
       && date_exists y m d
       && ((hh <=? 23) && (mi <=? 59) && (ss <=? 59)
           || (hh =? 24) && (mi =? 0) && (ss =? 0) && (ms =? 0))
    then TimeClip (days_from_civil y m d * msPerDay
                   + hh * 3600000 + mi * 60000 + ss * 1000 + ms)
    else None)))))))))))))).

(** The year that the [Date] constructor reads in its first argument. *)
Definition full_year (year : Z) : Z :=
  if (0 <=? year) && (year <=? 99) then 1900 + year else year.

(** [new Date(year, month, day)]: midnight of that day in the host's local
    time, for a host whose local time is [tz] minutes ahead of UTC.
    [month] counts from 0 and may overflow; a year from 0 to 99 means
    1900 + year. *)
Definition local_midnight (tz : Z) (year month day : Z) : option Z :=
  let year := full_year year in
  let y := year + month / 12 in
  let m := month mod 12 + 1 in
  TimeClip ((days_from_civil y m 1 + day - 1) * msPerDay - tz * msPerMinute).

(** The day number of the local calendar day that a time value falls
    on. *)
Definition local_day (tz : Z) (t : Z) : Z := (t + tz * msPerMinute) / msPerDay.

(** [Date.prototype.getDate]: the day of the month, in local time. *)
Definition getDate (tz : Z) (t : Z) : Z :=
  let '(_, _, d) := civil_from_days (local_day tz t) in d.

End JsDate.

(** ** Results and the world state *)

Inductive exn : Type :=
| TypeError      (* a method called on [undefined] *)
| RangeError     (* [toISOString] of an invalid date *)
| ReadError      (* the [FileReader] reported an error *)
| QuotaExceededError.   (* [localStorage.setItem] found no room *)

Inductive result (A : Type) : Type :=
| Ok (a : A)
| Throw (e : exn).

Arguments Ok {A} a.
Arguments Throw {A} e.

Definition result_bind {A B} (r : result A) (k : A -> result B) : result B :=
  match r with
  | Ok a => k a
  | Throw e => Throw e
  end.

(** [Array.prototype.filter] with a callback that may throw. *)
Fixpoint filterR {A} (p : A -> result bool) (l : list A) : result (list A) :=
  match l with
  | [] => Ok []
  | x :: r =>
      result_bind (p x) (fun b =>
      result_bind (filterR p r) (fun r' =>
      Ok (if b then x :: r' else r')))
  end.

(** The properties of the object literal that [handleUpload] builds. *)
Record fields : Type := mkFields {
  title : string;
  description : option string;
  tags : option (list string);
  fileName : string;
  fileType : option string;   (* [None]: no string under the property *)
  type : string;
  fileData : string;
  date : string
}.

(** A stored record: the properties above and the [id] that the store gave
    it. *)
Record entry : Type := mkEntry {
  id : Z;
  fields_of :> fields
}.

Module File.
(** A [File] of the file input.  [content] is the data URL that
    [FileReader.readAsDataURL] yields, [None] when the reader fails. *)
Record t : Type := mk {
  name : string;
  type : string;
  size : Z;
  content : option string
}.
End File.

Record toast : Type := mkToast {
  toastTitle : string;
  toastMessage : string;
  toastType : string
}.

Inductive storageCall : Type :=
| GetItem
| SetItem (value : list entry).

Inductive display : Type :=
| Loading
| Shown (entries : list entry)
| Failed.

(** The upload form: [fileInput.files], and the values of [titleInput],
    [descriptionInput] and [tagsInput]. *)
Record uploadForm : Type := mkForm {
  files : list File.t;
  titleInput : string;
  descriptionInput : string;
  tagsInput : string
}.

(** The filter bar: the values of [searchInput] and [typeFilter], and the
    options and the value of the [tagFilter] selector. *)
Record filterBar : Type := mkBar {
  searchInput : string;
  typeFilter : string;
  tagOptions : list string;
  tagFilter : string
}.

Record world : Type := mkWorld {
  localStorage : option (list entry);  (* the item under [STORE_NAME] *)
  storageLog : list storageCall;        (* the calls made so far, oldest first *)
  currentEntryId : option string;
  form : uploadForm;
  bar : filterBar;
  entriesList : display;
  toasts : list toast
}.

Definition set_localStorage (v : option (list entry)) (w : world) : world :=
  mkWorld v (storageLog w) (currentEntryId w) (form w) (bar w) (entriesList w)
          (toasts w).
Definition log_call (c : storageCall) (w : world) : world :=
  mkWorld (localStorage w) (storageLog w ++ [c]) (currentEntryId w) (form w)
          (bar w) (entriesList w) (toasts w).
Definition set_currentEntryId (v : option string) (w : world) : world :=
  mkWorld (localStorage w) (storageLog w) v (form w) (bar w) (entriesList w)
          (toasts w).
Definition set_form (v : uploadForm) (w : world) : world :=
  mkWorld (localStorage w) (storageLog w) (currentEntryId w) v (bar w)
          (entriesList w) (toasts w).
Definition set_bar (v : filterBar) (w : world) : world :=
  mkWorld (localStorage w) (storageLog w) (currentEntryId w) (form w) v
          (entriesList w) (toasts w).
Definition set_entriesList (v : display) (w : world) : world :=
  mkWorld (localStorage w) (storageLog w) (currentEntryId w) (form w) (bar w) v
          (toasts w).
Definition add_toast (t : toast) (w : world) : world :=
  mkWorld (localStorage w) (storageLog w) (currentEntryId w) (form w) (bar w)
          (entriesList w) (toasts w ++ [t]).

(** A method of the class: it runs on the world, and returns or throws. *)
Definition M (A : Type) : Type := world -> result A * world.

Definition ret {A} (a : A) : M A := fun w => (Ok a, w).

Definition throw {A} (e : exn) : M A := fun w => (Throw e, w).

Definition bind {A B} (c : M A) (k : A -> M B) : M B :=
  fun w => match c w with
           | (Ok a, w') => k a w'
           | (Throw e, w') => (Throw e, w')
           end.

Definition lift {A} (r : result A) : M A := fun w => (r, w).

(** [try { body } catch (error) { handler }] *)
Definition try_catch {A} (body : M A) (handler : exn -> M A) : M A :=
  fun w => match body w with
           | (Ok a, w') => (Ok a, w')
           | (Throw e, w') => handler e w'
           end.

Notation "x <- c1 ;; c2" := (bind c1 (fun x => c2))
  (at level 100, c1 at next level, right associativity).
Notation "c1 ;; c2" := (bind c1 (fun _ => c2))
  (at level 100, right associativity).

Definition showToast (t m ty : string) : M unit :=
  fun w => (Ok tt, add_toast (mkToast t m ty) w).

(** [localStorage.getItem(STORE_NAME)] and
    [localStorage.setItem(STORE_NAME, JSON.stringify(entries))].  Here the
    serialized array is taken to fit in the quota of the origin, so the write
    takes place; [Quota.setItem] below is the write that the host may
    refuse. *)
Definition getItem : M (option (list entry)) :=
  fun w => (Ok (localStorage w), log_call GetItem w).

Definition setItem (entries : list entry) : M unit :=
  fun w => (Ok tt, set_localStorage (Some entries) (log_call (SetItem entries) w)).

(** ** Constants *)

Definition MAX_FILE_SIZE : Z := 10 * 1024 * 1024.

Definition ALLOWED_TYPES : list (string * string) :=
  [ ("application/pdf", "pdf");
    ("application/vnd.openxmlformats-officedocument.wordprocessingml.document",
     "docx");
    ("text/plain", "txt");
    ("image/jpeg", "jpg");
    ("image/png", "png");
    ("video/mp4", "mp4") ].

(** The names that every object literal inherits from [Object.prototype]. *)
Definition Object_prototype_names : list string :=
  [ "constructor"; "__defineGetter__"; "__defineSetter__"; "hasOwnProperty";
    "__lookupGetter__"; "__lookupSetter__"; "isPrototypeOf";
    "propertyIsEnumerable"; "toString"; "valueOf"; "__proto__";
    "toLocaleString" ].

Inductive property : Type :=
| OwnString (s : string)   (* an own property of the literal *)
| Inherited                (* a function or object of [Object.prototype] *)
| Undefined.

Fixpoint own_property (key : string) (o : list (string * string)) : option string :=
  match o with
  | [] => None
  | (k, v) :: r => if String.eqb key k then Some v else own_property key r
  end.

(** [ALLOWED_TYPES[key]] *)
Definition ALLOWED_TYPES_get (key : string) : property :=
  match own_property key ALLOWED_TYPES with
  | Some v => OwnString v
  | None => if existsb (String.eqb key) Object_prototype_names then Inherited
            else Undefined
  end.

Definition property_truthy (p : property) : bool :=
  match p with
  | OwnString s => JsString.truthy s
  | Inherited => true
  | Undefined => false
  end.

(** What [JSON] keeps of the property when it is stored as [fileType]. *)
Definition property_string (p : property) : option string :=
  match p with
  | OwnString s => Some s
  | _ => None
  end.

(** A [File]'s [type] is a media type, [type/subtype], or the empty string
    when the browser could not determine one. *)
Definition is_media_type (s : string) : bool :=
  String.eqb s "" || JsString.includes s "/".

(** ** The record store: the localStorage backend *)

Definition getEntriesFromLocalStorage : M (list entry) :=
  entries <- getItem ;;
  ret (match entries with
       | Some l => l
       | None => []
       end).

(** The model is in fallback mode ([useLocalStorage] is true), so
    [getAllEntries], [addEntry], [updateEntry] and [removeEntry] are their
    localStorage branches. *)
Definition getAllEntries : M (list entry) := getEntriesFromLocalStorage.

Definition addEntryToLocalStorage (f : fields) : M Z :=
  entries <- getEntriesFromLocalStorage ;;
  let new_id := match entries with
                | e :: es => JsNumber.Math_max (id e) (map id es) + 1
                | [] => 1
                end in
  setItem (entries ++ [mkEntry new_id f]) ;;
  ret new_id.

Definition addEntry (f : fields) : M Z := addEntryToLocalStorage f.

Definition updateEntryInLocalStorage (e : entry) : M unit :=
  entries <- getEntriesFromLocalStorage ;;
  match JsArray.findIndex (fun x => id x =? id e) entries with
  | Some index => setItem (<[index := e]> entries)
  | None => ret tt
  end.

Definition updateEntry (e : entry) : M unit := updateEntryInLocalStorage e.

(** [updateEntry(entry)] for an object whose [id] is the number [entry_id].
    When that number is [NaN], [e.id === entry.id] holds for no stored
    record: [findIndex] is -1 and nothing is written. *)
Definition updateEntry_numbered (entry_id : option Z) (f : fields) : M unit :=
  match entry_id with
  | Some n => updateEntry (mkEntry n f)
  | None => getEntriesFromLocalStorage ;; ret tt
  end.

Definition removeEntryFromLocalStorage (id_arg : string) : M unit :=
  entries <- getEntriesFromLocalStorage ;;
  let filteredEntries :=
    List.filter
      (fun e => negb (JsNumber.strict_eq (id e) (JsNumber.parseInt id_arg)))
      entries in
  setItem filteredEntries.

Definition removeEntry (id_arg : string) : M unit :=
  removeEntryFromLocalStorage id_arg.

(** [None] is the [undefined] that [find] returns when no record has the
    id. *)
Definition getEntryById (id_arg : string) : M (option entry) :=
  entries <- getEntriesFromLocalStorage ;;
  ret (List.find
         (fun e => JsNumber.strict_eq (id e) (JsNumber.parseInt id_arg))
         entries).

(** What the store holds, as [getAllEntries] reads it. *)
Definition stored (w : world) : list entry :=
  match localStorage w with
  | Some l => l
  | None => []
  end.

(** ** Values that may be [undefined] *)

(** The receiver of a method call or of a property read: [undefined]
    throws. *)
Definition receiver {A} (v : option A) : result A :=
  match v with
  | Some a => Ok a
  | None => Throw TypeError
  end.

(** Truthiness of a value that is a string or [undefined], and of one that
    is an array or [undefined] (every array is truthy). *)
Definition string_truthy (v : option string) : bool :=
  match v with
  | Some s => JsString.truthy s
  | None => false
  end.

Definition array_truthy {A} (v : option (list A)) : bool :=
  match v with
  | Some _ => true
  | None => false
  end.

(** Truthiness of an object, such as a promise. *)
Definition object_truthy {A} (o : A) : bool := true.

Definition get_world : M world := fun w => (Ok w, w).

Definition modify (f : world -> world) : M unit := fun w => (Ok tt, f w).

(** ** The query layer: [loadEntries] *)

Definition matchesSearch (searchTerm : string) (e : entry) : result bool :=
  if String.eqb searchTerm "" then Ok true
  else if JsString.includes (JsString.toLowerCase (title e)) searchTerm then Ok true
  else if string_truthy (description e) then
    result_bind (receiver (description e)) (fun d =>
    Ok (JsString.includes (JsString.toLowerCase d) searchTerm))
  else Ok false.

Definition matchesType (typeFilter : string) (e : entry) : bool :=
  String.eqb typeFilter "all" || String.eqb (type e) typeFilter.

Definition matchesTag (tagFilter : string) (e : entry) : result bool :=
  if String.eqb tagFilter "all" then Ok true
  else if array_truthy (tags e) then
    result_bind (receiver (tags e)) (fun l =>
    Ok (existsb (fun tag => String.eqb (JsString.toLowerCase tag)
                                       (JsString.toLowerCase tagFilter)) l))
  else Ok false.

(** The callback of [entries.filter]. *)
Definition matchesAll (searchTerm typeFilter tagFilter : string) (e : entry)
  : result bool :=
  result_bind (matchesSearch searchTerm e) (fun ms =>
  let mt := matchesType typeFilter e in
  result_bind (matchesTag tagFilter e) (fun mg =>
  Ok (ms && mt && mg))).

(** The comparator of [entries.sort]:
    [new Date(b.date) - new Date(a.date)]. *)
Definition byDateDesc (a b : entry) : option Z :=
  match JsDate.parse (date b), JsDate.parse (date a) with
  | Some tb, Some ta => Some (tb - ta)
  | _, _ => None
  end.

Definition displayEntries (entries : list entry) : M unit :=
  modify (set_entriesList (Shown entries)).

Definition loadEntries : M unit :=
  modify (set_entriesList Loading) ;;
  try_catch
    (entries <- getAllEntries ;;
     w <- get_world ;;
     let searchTerm := JsString.toLowerCase (searchInput (bar w)) in
     let typeFilter := typeFilter (bar w) in
     let tagFilter := tagFilter (bar w) in
     entries <- lift (filterR (matchesAll searchTerm typeFilter tagFilter) entries) ;;
     let entries := JsArray.sort byDateDesc entries in
     displayEntries entries)
    (fun _ =>
       modify (set_entriesList Failed) ;;
       showToast "Error" "Failed to load entries" "danger").

(** ** The upload and save path: [editEntry], [handleUpload] *)

Definition emptyForm : uploadForm := mkForm [] "" "" "".

Definition resetForm : M unit :=
  modify (set_form emptyForm) ;;
  modify (set_currentEntryId None).

Definition editEntry (id_arg : string) : M unit :=
  try_catch
    (found <- getEntryById id_arg ;;
     match found with
     | None => showToast "Error" "Entry not found" "danger"
     | Some e =>
         modify (set_currentEntryId (Some id_arg)) ;;
         modify (set_form
                   (mkForm []
                      (title e)
                      (if string_truthy (description e)
                       then match description e with Some d => d | None => "" end
                       else "")
                      (match tags e with
                       | Some l => String.concat ", " l
                       | None => ""
                       end)))
     end)
    (fun _ => showToast "Error" "Failed to edit entry" "danger").

Definition readFileAsDataURL (file : File.t) : M string :=
  match File.content file with
  | Some d => ret d
  | None => throw ReadError
  end.

(** [now] is the time value of the [new Date()] that stamps the record.  The
    refresh of the display that ends the method ([loadEntries], [loadTags],
    [renderCalendar], started and not awaited) is left to those
    functions. *)
Definition handleUpload (now : Z) : M unit :=
  w <- get_world ;;
  match files (form w) with
  | [] => showToast "Error" "Please select a file" "danger"
  | file :: _ =>
      if negb (JsString.truthy (JsString.trim (titleInput (form w)))) then
        showToast "Error" "Please enter a title" "danger"
      else if negb (property_truthy (ALLOWED_TYPES_get (File.type file))) then
        showToast "Error" "File type not allowed" "danger"
      else if MAX_FILE_SIZE <? File.size file then
        showToast "Error" "File size exceeds 10MB limit" "danger"
      else
        let fileCategory :=
          if JsString.startsWith (File.type file) "image/" then "image"
          else if JsString.startsWith (File.type file) "video/" then "video"
          else "document" in
        let tags :=
          if JsString.truthy (tagsInput (form w))
          then List.filter JsString.truthy
                 (map JsString.trim (JsString.split "," (tagsInput (form w))))
          else [] in
        try_catch
          (fileData <- readFileAsDataURL file ;;
           let entry :=
             mkFields (JsString.trim (titleInput (form w)))
                      (Some (JsString.trim (descriptionInput (form w))))
                      (Some tags)
                      (File.name file)
                      (property_string (ALLOWED_TYPES_get (File.type file)))
                      fileCategory
                      fileData
                      (JsDate.toISOString now) in
           (if string_truthy (currentEntryId w) then
              updateEntry_numbered (JsNumber.parseInt_of (currentEntryId w)) entry ;;
              showToast "Success" "Entry updated successfully" "success"
            else
              addEntry entry ;;
              showToast "Success" "File uploaded successfully" "success") ;;
           resetForm)
          (fun _ => showToast "Error" "Failed to process file" "danger")
  end.

(** ** The tag index: [loadTags] *)

(** The body of [entries.forEach]: the tags of one record, lower-cased,
    added to the set. *)
Definition addTagsOf (e : entry) (tags_set : JsSet.t) : result JsSet.t :=
  if array_truthy (tags e) then
    result_bind (receiver (tags e)) (fun l =>
    if (0 <? length l)%nat then
      result_bind (receiver (tags e)) (fun l =>
      Ok (fold_left (fun s tag => JsSet.add s (JsString.toLowerCase tag)) l
                    tags_set))
    else Ok tags_set)
  else Ok tags_set.

Fixpoint collectTags (entries : list entry) (tags_set : JsSet.t)
  : result JsSet.t :=
  match entries with
  | [] => Ok tags_set
  | e :: r => result_bind (addTagsOf e tags_set) (collectTags r)
  end.

(** [Array.from(tags).sort()] *)
Definition tagIndex (entries : list entry) : result (list string) :=
  result_bind (collectTags entries JsSet.empty) (fun tags_set =>
  Ok (JsArray.sort JsArray.defaultCompare (JsSet.toArray tags_set))).

(** Assignment to the [value] of a selector: the option of that value
    becomes the selected one, and none when there is no such option. *)
Definition select_value (options : list string) (v : string) : string :=
  if existsb (String.eqb v) options then v else "".

Definition loadTags : M unit :=
  try_catch
    (entries <- getAllEntries ;;
     tags_set <- lift (collectTags entries JsSet.empty) ;;
     w <- get_world ;;
     let currentTag := tagFilter (bar w) in
     let options :=
       "all" :: JsArray.sort JsArray.defaultCompare (JsSet.toArray tags_set) in
     let value :=
       if negb (String.eqb currentTag "all")
          && JsSet.has tags_set (JsString.toLowerCase currentTag)
       then select_value options currentTag
       else "all" in
     modify (set_bar (mkBar (searchInput (bar w)) (typeFilter (bar w))
                            options value)))
    (fun _ => ret tt).

(** ** The calendar: [doesDateHaveEntries], [renderCalendar] *)

(** A [Date] object is its time value, [None] when the date is invalid. *)
Definition Date_toISOString (d : option Z) : result string :=
  match d with
  | Some t => Ok (JsDate.toISOString t)
  | None => Throw RangeError
  end.

Definition doesDateHaveEntries (d : option Z) : M bool :=
  try_catch
    (entries <- getAllEntries ;;
     if (length entries =? 0)%nat then ret false
     else
       iso <- lift (Date_toISOString d) ;;
       let dateStr := JsString.split0 "T" iso in
       ret (existsb (fun e : entry =>
                       String.eqb (JsString.split0 "T" (date e)) dateStr)
                    entries))
    (fun _ => ret false).

(** A cell of the displayed month: the day of the month and the class that
    marks a day with entries. *)
Record cell : Type := mkCell {
  dayOfMonth : Z;
  hasEntriesClass : string
}.

(** The cells of the month [month] (from 0) of [year] that [renderCalendar]
    writes, on a host whose local time is [tz] minutes ahead of UTC; [year]
    and [month] are [date.getFullYear()] and [date.getMonth()].  The
    call of the [async] method [doesDateHaveEntries] yields a promise, and
    the conditional tests the promise. *)
Definition renderCalendar (tz year month : Z) : list cell :=
  let daysInMonth :=
    match JsDate.local_midnight tz year (month + 1) 0 with
    | Some t => JsDate.getDate tz t
    | None => 0   (* [NaN]: the loop over the days does not run *)
    end in
  map (fun i =>
         let currentDate := JsDate.local_midnight tz year month i in
         let promise := doesDateHaveEntries currentDate in
         mkCell i (if object_truthy promise then "has-entries" else ""))
      (map Z.of_nat (seq 1 (Z.to_nat daysInMonth))).

(** ** Words of the specification, and sample data *)

(** [m] is the greatest element of [l]. *)
Definition is_max (m : Z) (l : list Z) : Prop :=
  In m l /\ Forall (fun i => i <= m) l.

(** The sequence [kept] is what remains of [l] when exactly the elements
    that satisfy [P] are kept, in their order. *)
Inductive keeps {A} (P : A -> Prop) : list A -> list A -> Prop :=
| keeps_nil : keeps P [] []
| keeps_yes x l kept : P x -> keeps P l kept -> keeps P (x :: l) (x :: kept)
| keeps_no x l kept : ~ P x -> keeps P l kept -> keeps P (x :: l) kept.

(** The operations of the record store, as a caller issues them. *)
Inductive op : Type :=
| Insert (f : fields)
| Update (e : entry)
| Delete (id_arg : string).

Definition run_op (o : op) (w : world) : world :=
  match o with
  | Insert f => snd (addEntryToLocalStorage f w)
  | Update e => snd (updateEntryInLocalStorage e w)
  | Delete i => snd (removeEntryFromLocalStorage i w)
  end.

Definition run_ops (ops : list op) (w : world) : world :=
  fold_left (fun w o => run_op o w) ops w.

(** A page that was just opened: nothing stored, nothing shown. *)
Definition freshWorld : world :=
  mkWorld None [] None emptyForm (mkBar "" "all" ["all"] "all") Loading [].

(** Case-insensitive substring match of [t] against [s]. *)
Definition ci_substring (t s : string) : Prop :=
  JsString.substring_of (JsString.toLowerCase t) (JsString.toLowerCase s).

Definition spec_matchesSearch (searchTerm : string) (e : entry) : Prop :=
  searchTerm = ""
  \/ ci_substring searchTerm (title e)
  \/ exists d, description e = Some d /\ ci_substring searchTerm d.

Definition spec_matchesType (typeFilter : string) (e : entry) : Prop :=
  typeFilter = "all" \/ type e = typeFilter.

Definition spec_matchesTag (tagFilter : string) (e : entry) : Prop :=
  tagFilter = "all"
  \/ exists l tag, tags e = Some l /\ In tag l
                   /\ JsString.toLowerCase tag = JsString.toLowerCase tagFilter.

Definition selected (searchTerm typeFilter tagFilter : string) (e : entry)
  : Prop :=
  spec_matchesSearch searchTerm e
  /\ spec_matchesType typeFilter e
  /\ spec_matchesTag tagFilter e.

(** [a] is not older than [b], both dates being timestamps. *)
Definition newest_first (a b : entry) : Prop :=
  exists ta tb, JsDate.parse (date a) = Some ta
                /\ JsDate.parse (date b) = Some tb /\ tb <= ta.

(** The [date] of the record is a timestamp. *)
Definition dated (e : entry) : bool :=
  match JsDate.parse (date e) with
  | Some _ => true
  | None => false
  end.

(** The date that an operation brings into the store, if it brings one, is
    a timestamp. *)
Definition op_dated (o : op) : Prop :=
  match o with
  | Insert f => dated (mkEntry 0 f) = true
  | Update e => dated e = true
  | Delete _ => True
  end.

Definition sampleReport : entry :=
  mkEntry 1 (mkFields "Report" (Some "Annual figures") (Some ["Work"; "URGENT"])
               "report.pdf" (Some "pdf") "document"
               "data:application/pdf;base64,JVBERi0="
               "2024-01-01T10:00:00.000Z").

Definition samplePhoto : entry :=
  mkEntry 2 (mkFields "Holiday" None (Some ["family"])
               "beach.png" (Some "png") "image"
               "data:image/png;base64,iVBORw0="
               "2024-01-02T09:00:00.000Z").

Definition sampleWorld : world :=
  set_localStorage (Some [sampleReport; samplePhoto]) freshWorld.

(** The lower-cased tags of a record. *)
Definition tag_of (e : entry) (t : string) : Prop :=
  exists l tag, tags e = Some l /\ In tag l /\ t = JsString.toLowerCase tag.

(** [a] is not after [b] in the order of the code units. *)
Definition string_le (a b : string) : Prop := String.ltb b a = false.

(** The content types that an upload may have. *)
Definition allowed_content_types : list string := map fst ALLOWED_TYPES.

(** An 11 MiB PDF, a program file of a type that is not allowed, and a small
    PDF. *)
Definition bigPdf : File.t :=
  File.mk "big.pdf" "application/pdf" (11 * 1024 * 1024)
          (Some "data:application/pdf;base64,JVBERi0=").

Definition programFile : File.t :=
  File.mk "setup.exe" "application/x-msdownload" 2048
          (Some "data:application/x-msdownload;base64,TVo=").

Definition smallPdf : File.t :=
  File.mk "report-v2.pdf" "application/pdf" (2 * 1024 * 1024)
          (Some "data:application/pdf;base64,JVBERi0y").

(** The world in which the upload form holds [file] and a title. *)
Definition uploading (file : File.t) (w : world) : world :=
  set_form (mkForm [file] "Report" "" "") w.

(** The form passes the checks that precede the reading of the file. *)
Definition form_accepted (w : world) (file : File.t) : bool :=
  JsString.truthy (JsString.trim (titleInput (form w)))
  && property_truthy (ALLOWED_TYPES_get (File.type file))
  && negb (MAX_FILE_SIZE <? File.size file).

(** The statement that an edit keeps the date of the record: whenever the
    record of id [n] is being edited in [w], the record of that id that is
    stored after the save made at [now] has the date it had before. *)
Definition edit_keeps_date (now : Z) (w : world) : Prop :=
  forall i n e e',
    currentEntryId w = Some i -> JsNumber.parseInt i = Some n ->
    List.find (fun x => id x =? n) (stored w) = Some e ->
    List.find (fun x => id x =? n) (stored (snd (handleUpload now w))) = Some e' ->
    date e' = date e.

(** The world in which the report of [sampleWorld] was opened for editing
    and a new file was chosen. *)
Definition editingReport : world :=
  set_form (mkForm [smallPdf] "Report" "Annual figures" "Work, URGENT")
           (snd (editEntry "1" sampleWorld)).

(** The record's date falls on the local calendar day [year]-[month]-[day]
    ([month] from 0) of a host [tz] minutes ahead of UTC. *)
Definition falls_on (tz : Z) (e : entry) (year month day : Z) : bool :=
  match JsDate.parse (date e) with
  | Some t => JsDate.local_day tz t =? JsDate.days_from_civil year (month + 1) day
  | None => false
  end.

(** The value that the promise of [doesDateHaveEntries] resolves to, for
    the cell of [day]. *)
Definition awaited (tz year month day : Z) (w : world) : result bool :=
  fst (doesDateHaveEntries (JsDate.local_midnight tz year month day) w).

(** A note written in Kathmandu (UTC+5:45) on 2024-01-02 at 10:00 local
    time. *)
Definition morningNote : entry :=
  mkEntry 1 (mkFields "Note" (Some "") (Some []) "note.txt" (Some "txt")
               "document" "data:text/plain;base64,aGk="
               "2024-01-02T04:15:00.000Z").

Definition kathmandu : Z := 345.

(** ** The rest of the class: ids as text, [deleteEntry], the calendar grid *)

(** The decimal digits of [n], for [0 <= n], most significant first, put
    before [acc]. *)
Fixpoint digits_of (fuel : nat) (n : Z) (acc : string) : string :=
  match fuel with
  | O => acc
  | S f =>
      let acc' := String (JsDate.digit_char (n mod 10)) acc in
      if n <? 10 then acc' else digits_of f (n / 10) acc'
  end.

(** The text of an integer in a template literal, as [displayEntries] writes
    it into [data-id="${entry.id}"] (integers below 10^21 are written in
    full). *)
Definition Number_toString (n : Z) : string :=
  if n <? 0 then String "-" (digits_of (S (Z.to_nat (Z.log2 (- n)))) (- n) "")
  else digits_of (S (Z.to_nat (Z.log2 n))) n "".

(** [confirmed] is the answer to the [confirm] dialog.  The refresh of the
    display that follows the toast is left to [loadEntries], [loadTags] and
    [renderCalendar]. *)
Definition deleteEntry (confirmed : bool) (id_arg : string) : M unit :=
  if negb confirmed then ret tt
  else
    try_catch
      (removeEntry id_arg ;;
       showToast "Success" "Entry deleted successfully" "success")
      (fun _ => showToast "Error" "Failed to delete entry" "danger").

(** The expression that [handleUpload] evaluates for [tags]. *)
Definition parseTags (input : string) : list string :=
  if JsString.truthy input
  then List.filter JsString.truthy (map JsString.trim (JsString.split "," input))
  else [].

(** The character occurs in the string. *)
Fixpoint has_char (c : ascii) (s : string) : bool :=
  match s with
  | EmptyString => false
  | String x r => Ascii.eqb x c || has_char c r
  end.

(** A tag as [handleUpload] stores it, that the form can show again: not
    empty, without white space around it, without comma. *)
Definition clean_tag (t : string) : bool :=
  JsString.truthy t && String.eqb (JsString.trim t) t && negb (has_char "," t).

(** [Date.prototype.getFullYear], [getMonth] (from 0) and [getDay] (0 is
    Sunday), in the local time of a host [tz] minutes ahead of UTC. *)
Definition Date_getFullYear (tz t : Z) : Z :=
  let '(y, _, _) := JsDate.civil_from_days (JsDate.local_day tz t) in y.

Definition Date_getMonth (tz t : Z) : Z :=
  let '(_, m, _) := JsDate.civil_from_days (JsDate.local_day tz t) in m - 1.

Definition Date_getDay (tz t : Z) : Z := (JsDate.local_day tz t + 4) mod 7.

(** [isToday(date)], [today] being the time value of [new Date()].  A getter
    of an invalid date is [NaN], which is [===] to nothing. *)
Definition isToday (tz today : Z) (d : option Z) : bool :=
  match d with
  | Some t =>
      (JsDate.getDate tz t =? JsDate.getDate tz today)
      && (Date_getMonth tz t =? Date_getMonth tz today)
      && (Date_getFullYear tz t =? Date_getFullYear tz today)
  | None => false
  end.

(** The labels of the cells that [renderCalendar] puts before the days of
    the month (the end of the previous month) and after them (the start of
    the next one).  A label is [None] when it is [NaN]; a loop whose bound
    is [NaN] does not run. *)
Definition calendarLeading (tz year month : Z) : list (option Z) :=
  let firstDay := option_map (Date_getDay tz) (JsDate.local_midnight tz year month 1) in
  let prevMonthDays :=
    option_map (JsDate.getDate tz) (JsDate.local_midnight tz year month 0) in
  match firstDay with
  | Some fd =>
      map (fun i => option_map (fun p => p - fd + i + 1) prevMonthDays)
          (map Z.of_nat (seq 0 (Z.to_nat fd)))
  | None => []
  end.

Definition calendarTrailing (tz year month : Z) : list (option Z) :=
  let firstDay := option_map (Date_getDay tz) (JsDate.local_midnight tz year month 1) in
  let daysInMonth :=
    option_map (JsDate.getDate tz) (JsDate.local_midnight tz year (month + 1) 0) in
  match firstDay, daysInMonth with
  | Some fd, Some dim =>
      let totalCells := fd + dim in
      let remainingCells :=
        if totalCells mod 7 =? 0 then 0 else 7 - totalCells mod 7 in
      map (fun i => Some i) (map Z.of_nat (seq 1 (Z.to_nat remainingCells)))
  | _, _ => []
  end.

(** The record was written by [handleUpload] at the time value [t]. *)
Definition written_at (e : entry) (t : Z) : Prop :=
  Z.abs t <= JsDate.maxTime /\ date e = JsDate.toISOString t.

(** The object literal that [handleUpload] builds for the file [file] read
    as [fileData], from the form of the world [w], at the time [now]. *)
Definition uploadFields (w : world) (file : File.t) (fileData : string)
    (now : Z) : fields :=
  mkFields (JsString.trim (titleInput (form w)))
           (Some (JsString.trim (descriptionInput (form w))))
           (Some (parseTags (tagsInput (form w))))
           (File.name file)
           (property_string (ALLOWED_TYPES_get (File.type file)))
           (if JsString.startsWith (File.type file) "image/" then "image"
            else if JsString.startsWith (File.type file) "video/" then "video"
            else "document")
           fileData
           (JsDate.toISOString now).

(** What ends a save that did not throw: the toast, then [resetForm]. *)
Definition saved (message : string) (w : world) : world :=
  set_currentEntryId None
    (set_form emptyForm (add_toast (mkToast "Success" message "success") w)).

(** The user chooses [file] in the file input and leaves the other fields
    of the form as they are. *)
Definition chooseFile (file : File.t) (w : world) : world :=
  set_form (mkForm [file] (titleInput (form w)) (descriptionInput (form w))
                   (tagsInput (form w))) w.

(** A tag without white space around it and not empty. *)
Definition tidy_tag (t : string) : Prop := t <> "" /\ JsString.trim t = t.

(** What the user does on the page: fill the upload form, set the filter
    bar, press the upload button at the time [now], press the edit or the
    delete button of a list item (and answer the [confirm] dialog), and have
    the list and the tag selector loaded again. *)
Inductive event : Type :=
| FillForm (f : uploadForm)
| SetFilters (search type_filter tag_filter : string)
| ClickUpload (now : Z)
| ClickEdit (id_arg : string)
| ClickDelete (confirmed : bool) (id_arg : string)
| Reload.

Definition step (ev : event) (w : world) : world :=
  match ev with
  | FillForm f => set_form f w
  | SetFilters s t g => set_bar (mkBar s t (tagOptions (bar w)) g) w
  | ClickUpload now => snd (handleUpload now w)
  | ClickEdit i => snd (editEntry i w)
  | ClickDelete c i => snd (deleteEntry c i w)
  | Reload => snd (loadTags (snd (loadEntries w)))
  end.

Definition session (evs : list event) (w : world) : world :=
  fold_left (fun w ev => step ev w) evs w.

(** The clock of the host gives valid time values. *)
Definition event_ok (ev : event) : Prop :=
  match ev with
  | ClickUpload now => Z.abs now <= JsDate.maxTime
  | _ => True
  end.

(** The store is well formed: every date is a timestamp and the ids are
    pairwise distinct. *)
Definition well_formed (w : world) : Prop :=
  forallb dated (stored w) = true /\ NoDup (map id (stored w)).

(** ** The store and the save when the host may refuse a write *)

Module Quota.

Section Host.

(** The host's answer to a write: whether the serialized array fits in the
    quota of the origin. *)
Variable fits : list entry -> bool.

(** [localStorage.setItem(STORE_NAME, JSON.stringify(entries))]: it throws
    when the value does not fit, and then stores nothing. *)
Definition setItem (entries : list entry) : M unit :=
  fun w =>
    if fits entries
    then (Ok tt, set_localStorage (Some entries) (log_call (SetItem entries) w))
    else (Throw QuotaExceededError, log_call (SetItem entries) w).

Definition addEntryToLocalStorage (f : fields) : M Z :=
  entries <- getEntriesFromLocalStorage ;;
  let new_id := match entries with
                | e :: es => JsNumber.Math_max (id e) (map id es) + 1
                | [] => 1
                end in
  setItem (entries ++ [mkEntry new_id f]) ;;
  ret new_id.

Definition addEntry (f : fields) : M Z := addEntryToLocalStorage f.

Definition updateEntryInLocalStorage (e : entry) : M unit :=
  entries <- getEntriesFromLocalStorage ;;
  match JsArray.findIndex (fun x => id x =? id e) entries with
  | Some index => setItem (<[index := e]> entries)
  | None => ret tt
  end.

Definition updateEntry (e : entry) : M unit := updateEntryInLocalStorage e.

Definition updateEntry_numbered (entry_id : option Z) (f : fields) : M unit :=
  match entry_id with
  | Some n => updateEntry (mkEntry n f)
  | None => getEntriesFromLocalStorage ;; ret tt
  end.

Definition handleUpload (now : Z) : M unit :=
  w <- get_world ;;
  match files (form w) with
  | [] => showToast "Error" "Please select a file" "danger"
  | file :: _ =>
      if negb (JsString.truthy (JsString.trim (titleInput (form w)))) then
        showToast "Error" "Please enter a title" "danger"
      else if negb (property_truthy (ALLOWED_TYPES_get (File.type file))) then
        showToast "Error" "File type not allowed" "danger"
      else if MAX_FILE_SIZE <? File.size file then
        showToast "Error" "File size exceeds 10MB limit" "danger"
      else
        let fileCategory :=
          if JsString.startsWith (File.type file) "image/" then "image"
          else if JsString.startsWith (File.type file) "video/" then "video"
          else "document" in
        let tags :=
          if JsString.truthy (tagsInput (form w))
          then List.filter JsString.truthy
                 (map JsString.trim (JsString.split "," (tagsInput (form w))))
          else [] in
        try_catch
          (fileData <- readFileAsDataURL file ;;
           let entry :=
             mkFields (JsString.trim (titleInput (form w)))
                      (Some (JsString.trim (descriptionInput (form w))))
                      (Some tags)
                      (File.name file)
                      (property_string (ALLOWED_TYPES_get (File.type file)))
                      fileCategory
                      fileData
                      (JsDate.toISOString now) in
           (if string_truthy (currentEntryId w) then
              updateEntry_numbered (JsNumber.parseInt_of (currentEntryId w)) entry ;;
              showToast "Success" "Entry updated successfully" "success"
            else
              addEntry entry ;;
              showToast "Success" "File uploaded successfully" "success") ;;
           resetForm)
          (fun _ => showToast "Error" "Failed to process file" "danger")
  end.

End Host.

End Quota.

(** A host that refuses nothing, and one with room for two records. *)
Definition unlimited (entries : list entry) : bool := true.

Definition room_for_two (entries : list entry) : bool :=
  (length entries <=? 2)%nat.

(** A file of one byte whose type is a name that every object inherits. *)
Definition constructorFile : File.t :=
  File.mk "x.bin" "constructor" 1 (Some "data:;base64,AA==").

(** The id that an insert gives to the next record. *)
Definition next_id (entries : list entry) : Z :=
  match entries with
  | e :: es => JsNumber.Math_max (id e) (map id es) + 1
  | [] => 1
  end.

(** * Properties *)

(** ** Host library *)

Example toLowerCase_ex : JsString.toLowerCase "Work URGENT-1" = "work urgent-1".
Proof. reflexivity. Qed.

Example includes_ex :
  JsString.includes "annual report" "rep" = true
  /\ JsString.includes "annual report" "" = true
  /\ JsString.includes "" "a" = false
  /\ JsString.includes "abc" "abd" = false.
Proof. repeat split. Qed.

Example trim_ex : JsString.trim "  a b  " = "a b" /\ JsString.trim "   " = "".
Proof. split; reflexivity. Qed.

Example split_ex :
  JsString.split "," "a, b,,c" = ["a"; " b"; ""; "c"]
  /\ JsString.split0 "T" "2024-01-02T09:00:00.000Z" = "2024-01-02"
  /\ JsString.split0 "T" "nodate" = "nodate".
Proof. repeat split. Qed.

Example sort_ex :
  JsArray.sort JsArray.defaultCompare ["work"; "urgent"; "alpha"]
  = ["alpha"; "urgent"; "work"].
Proof. reflexivity. Qed.

Example parseInt_ex :
  JsNumber.parseInt "42" = Some 42 /\ JsNumber.parseInt " -7px" = Some (-7)
  /\ JsNumber.parseInt "0x1F" = Some 31 /\ JsNumber.parseInt "abc" = None
  /\ JsNumber.parseInt "" = None.
Proof. repeat split. Qed.

Example toISOString_ex :
  JsDate.toISOString 1704186000000 = "2024-01-02T09:00:00.000Z"
  /\ JsDate.toISOString 0 = "1970-01-01T00:00:00.000Z"
  /\ JsDate.toISOString (-1) = "1969-12-31T23:59:59.999Z"
  /\ JsDate.toISOString 951782400123 = "2000-02-29T00:00:00.123Z"
  /\ JsDate.toISOString 253402300800000 = "+010000-01-01T00:00:00.000Z".
Proof. repeat split. Qed.

Example parse_ex :
  JsDate.parse "2024-01-02T09:00:00.000Z" = Some 1704186000000
  /\ JsDate.parse "1969-12-31T23:59:59.999Z" = Some (-1)
  /\ JsDate.parse "2023-02-29T00:00:00.000Z" = None
  /\ JsDate.parse "yesterday" = None.
Proof. repeat split. Qed.

Example local_midnight_ex :
  JsDate.local_midnight 0 2024 0 2 = Some 1704153600000
  /\ JsDate.local_midnight 345 2024 0 2 = Some 1704132900000
  /\ JsDate.local_midnight 0 2024 12 1 = JsDate.local_midnight 0 2025 0 1.
Proof. repeat split. Qed.

(** ** The record store *)

Ltac run_store :=
  unfold addEntryToLocalStorage, updateEntryInLocalStorage,
    removeEntryFromLocalStorage, getEntryById, getAllEntries,
    getEntriesFromLocalStorage, getItem, setItem, bind, ret, stored;
  simpl.

Lemma stored_log_call c w : stored (log_call c w) = stored w.
Proof. reflexivity. Qed.

Lemma stored_set_localStorage l w : stored (set_localStorage (Some l) w) = l.
Proof. reflexivity. Qed.

Lemma Math_max_ge x xs : x <= JsNumber.Math_max x xs.
Proof.
  unfold JsNumber.Math_max. revert x.
  induction xs as [|y ys IH]; intros x; simpl; [lia|].
  specialize (IH (Z.max x y)). lia.
Qed.

Lemma Math_max_is_max x xs : is_max (JsNumber.Math_max x xs) (x :: xs).
Proof.
  unfold JsNumber.Math_max. revert x.
  induction xs as [|y ys IH]; intros x; simpl.
  - split; [now left | constructor; [lia | constructor]].
  - destruct (IH (Z.max x y)) as [Hin Hall]. split.
    + destruct Hin as [Heq | Hin]; [|right; now right].
      rewrite <- Heq.
      destruct (Z.max_spec x y) as [[_ ->] | [_ ->]]; [right |]; now left.
    + pose proof (Math_max_ge (Z.max x y) ys) as Hge.
      unfold JsNumber.Math_max in Hge.
      inversion Hall as [|? ? ? Hrest]; subst.
      constructor; [lia|]. constructor; [lia | assumption].
Qed.

Lemma addEntryToLocalStorage_run f w :
  addEntryToLocalStorage f w
  = (Ok (match stored w with
         | e :: es => JsNumber.Math_max (id e) (map id es) + 1
         | [] => 1
         end),
     set_localStorage
       (Some (stored w
              ++ [mkEntry (match stored w with
                           | e :: es => JsNumber.Math_max (id e) (map id es) + 1
                           | [] => 1
                           end) f]))
       (log_call
          (SetItem
             (stored w
              ++ [mkEntry (match stored w with
                           | e :: es => JsNumber.Math_max (id e) (map id es) + 1
                           | [] => 1
                           end) f]))
          (log_call GetItem w))).
Proof. run_store. destruct (localStorage w); reflexivity. Qed.

(** C2. An insert through the localStorage backend appends the record under
    an id that is 1 when the store is empty and one more than the greatest
    stored id otherwise, and returns that id. *)
Theorem addEntryToLocalStorage_assigns_next_id (f : fields) (w : world) :
  exists new_id w',
    addEntryToLocalStorage f w = (Ok new_id, w')
    /\ stored w' = stored w ++ [mkEntry new_id f]
    /\ (stored w = [] -> new_id = 1)
    /\ (stored w <> [] -> is_max (new_id - 1) (map id (stored w))).
Proof.
  rewrite addEntryToLocalStorage_run.
  eexists _, _. split; [reflexivity|].
  split; [reflexivity|]. split.
  - intros ->. reflexivity.
  - destruct (stored w) as [|e es]; [congruence|]. intros _.
    replace (JsNumber.Math_max (id e) (map id es) + 1 - 1)
      with (JsNumber.Math_max (id e) (map id es)) by lia.
    apply Math_max_is_max.
Qed.

Lemma findIndex_Some {A} (p : A -> bool) (l : list A) (i : nat) :
  JsArray.findIndex p l = Some i ->
  exists x, l !! i = Some x /\ p x = true
            /\ forall j y, (j < i)%nat -> l !! j = Some y -> p y = false.
Proof.
  revert i. induction l as [|a l IH]; intros i; simpl; [discriminate|].
  destruct (p a) eqn:Hpa.
  - intros [= <-]. exists a. repeat split; [assumption|]. intros j y Hj. lia.
  - destruct (JsArray.findIndex p l) as [k|] eqn:Hk; simpl; [|discriminate].
    intros [= <-]. destruct (IH k eq_refl) as (x & Hx & Hpx & Hbefore).
    exists x. repeat split; [assumption .. |].
    intros [|j] y Hj; simpl.
    + intros [= <-]. assumption.
    + apply Hbefore. lia.
Qed.

Lemma findIndex_None {A} (p : A -> bool) (l : list A) :
  JsArray.findIndex p l = None <-> forall x, In x l -> p x = false.
Proof.
  induction l as [|a l IH]; simpl.
  - split; [intros _ x [] | reflexivity].
  - destruct (p a) eqn:Hpa.
    + split; [discriminate|]. intros H. specialize (H a (or_introl eq_refl)).
      congruence.
    + destruct (JsArray.findIndex p l) as [k|]; simpl.
      * split; [discriminate|]. intros H.
        assert (Hl : forall x, In x l -> p x = false) by (intros; apply H; now right).
        apply IH in Hl. discriminate.
      * split; [|reflexivity]. intros _ x [<- | Hin]; [assumption|].
        now apply (proj1 IH).
Qed.

Lemma updateEntryInLocalStorage_run e w :
  updateEntryInLocalStorage e w
  = match JsArray.findIndex (fun x => id x =? id e) (stored w) with
    | Some index =>
        (Ok tt,
         set_localStorage (Some (<[index := e]> (stored w)))
           (log_call (SetItem (<[index := e]> (stored w))) (log_call GetItem w)))
    | None => (Ok tt, log_call GetItem w)
    end.
Proof.
  run_store.
  destruct (localStorage w) as [l|]; simpl.
  - destruct (JsArray.findIndex _ l); reflexivity.
  - reflexivity.
Qed.

Lemma updateEntryInLocalStorage_present (e : entry) (w : world) (i : nat)
    (x : entry) :
  stored w !! i = Some x -> id x = id e ->
  (forall j y, (j < i)%nat -> stored w !! j = Some y -> id y <> id e) ->
  updateEntryInLocalStorage e w
  = (Ok tt,
     set_localStorage (Some (<[i := e]> (stored w)))
       (log_call (SetItem (<[i := e]> (stored w))) (log_call GetItem w))).
Proof.
  intros Hi Hid Hfirst. rewrite updateEntryInLocalStorage_run.
  destruct (JsArray.findIndex (fun x => id x =? id e) (stored w)) as [k|] eqn:Hk.
  - destruct (findIndex_Some _ _ _ Hk) as (y & Hy & Hpy & Hbefore).
    apply Z.eqb_eq in Hpy.
    assert (k = i) as ->; [|reflexivity].
    destruct (Nat.lt_trichotomy k i) as [Hlt | [Heq | Hgt]]; [| assumption |].
    + exfalso. exact (Hfirst k y Hlt Hy Hpy).
    + specialize (Hbefore i x Hgt Hi). apply Z.eqb_neq in Hbefore.
      contradiction.
  - exfalso. rewrite findIndex_None in Hk.
    assert (Hin : In x (stored w)).
    { apply list_elem_of_In, list_elem_of_lookup. eauto. }
    specialize (Hk x Hin). apply Z.eqb_neq in Hk. contradiction.
Qed.

(** C3. An update through the localStorage backend returns without
    throwing.  When a stored record has the id of the given record, the
    first such record is replaced by the given record as a whole and every
    other position keeps its record; when no stored record has that id, the
    item in localStorage is left as it was and nothing is written. *)
Theorem updateEntryInLocalStorage_replaces_or_skips (e : entry) (w : world) :
  exists w',
    updateEntryInLocalStorage e w = (Ok tt, w')
    /\ (forall i x,
          stored w !! i = Some x -> id x = id e ->
          (forall j y, (j < i)%nat -> stored w !! j = Some y -> id y <> id e) ->
          stored w' !! i = Some e
          /\ length (stored w') = length (stored w)
          /\ forall j, j <> i -> stored w' !! j = stored w !! j)
    /\ ((forall x, In x (stored w) -> id x <> id e) ->
        localStorage w' = localStorage w
        /\ storageLog w' = storageLog w ++ [GetItem]).
Proof.
  destruct (updateEntryInLocalStorage e w) as [r w'] eqn:Hrun.
  assert (Hr : r = Ok tt).
  { rewrite updateEntryInLocalStorage_run in Hrun.
    destruct (JsArray.findIndex _ (stored w)); now inversion Hrun. }
  subst r. exists w'. split; [reflexivity|]. split.
  - intros i x Hi Hid Hfirst.
    rewrite (updateEntryInLocalStorage_present e w i x Hi Hid Hfirst) in Hrun.
    inversion Hrun; subst w'. rewrite stored_set_localStorage. repeat split.
    + apply list_lookup_insert_eq. eapply lookup_lt_Some; eassumption.
    + apply length_insert.
    + intros j Hj. apply list_lookup_insert_ne. congruence.
  - intros Habsent. rewrite updateEntryInLocalStorage_run in Hrun.
    destruct (JsArray.findIndex (fun x => id x =? id e) (stored w)) as [k|] eqn:Hk.
    + destruct (findIndex_Some _ _ _ Hk) as (y & Hy & Hpy & _).
      apply Z.eqb_eq in Hpy. exfalso.
      apply (Habsent y); [|assumption].
      apply list_elem_of_In, list_elem_of_lookup. eauto.
    + inversion Hrun; subst w'. split; reflexivity.
Qed.

(** When the ids of the store are pairwise distinct, the record that an
    update replaces is the one record of that id. *)
Lemma updateEntryInLocalStorage_unique_id (e : entry) (w : world) i x :
  NoDup (map id (stored w)) ->
  stored w !! i = Some x -> id x = id e ->
  forall j y, (j < i)%nat -> stored w !! j = Some y -> id y <> id e.
Proof.
  intros Hnd Hi Hid j y Hj Hy Heq.
  assert (Hmi : map id (stored w) !! i = Some (id e)).
  { change (map id (stored w)) with (id <$> stored w).
    rewrite list_lookup_fmap, Hi. simpl. now rewrite Hid. }
  assert (Hmj : map id (stored w) !! j = Some (id e)).
  { change (map id (stored w)) with (id <$> stored w).
    rewrite list_lookup_fmap, Hy. simpl. now rewrite Heq. }
  pose proof (proj1 (NoDup_alt _) Hnd i j (id e) Hmi Hmj). lia.
Qed.

Lemma removeEntryFromLocalStorage_run i w :
  removeEntryFromLocalStorage i w
  = (Ok tt,
     set_localStorage
       (Some (List.filter
                (fun e => negb (JsNumber.strict_eq (id e) (JsNumber.parseInt i)))
                (stored w)))
       (log_call
          (SetItem
             (List.filter
                (fun e => negb (JsNumber.strict_eq (id e) (JsNumber.parseInt i)))
                (stored w)))
          (log_call GetItem w))).
Proof. run_store. destruct (localStorage w); reflexivity. Qed.

Lemma getEntryById_run i w :
  getEntryById i w
  = (Ok (List.find
           (fun e => JsNumber.strict_eq (id e) (JsNumber.parseInt i))
           (stored w)),
     log_call GetItem w).
Proof. run_store. destruct (localStorage w); reflexivity. Qed.

Lemma find_filter_negb {A} (p : A -> bool) (l : list A) :
  List.find p (List.filter (fun x => negb (p x)) l) = None.
Proof.
  induction l as [|a l IH]; simpl; [reflexivity|].
  destruct (p a) eqn:Hpa; simpl; [assumption|]. now rewrite Hpa.
Qed.

Lemma filter_filter_same {A} (p : A -> bool) (l : list A) :
  List.filter p (List.filter p l) = List.filter p l.
Proof.
  induction l as [|a l IH]; simpl; [reflexivity|].
  destruct (p a) eqn:Hpa; simpl; [rewrite Hpa; f_equal|]; assumption.
Qed.

(** C8. A delete through the localStorage backend returns without throwing
    and keeps exactly the records of another id; a [getEntryById] of the same
    id afterwards finds nothing; and a second delete of that id returns
    without throwing and leaves the stored records as they were. *)
Theorem delete_then_get_then_delete (id_arg : string) (w : world) :
  exists w1 w2 w3,
    removeEntryFromLocalStorage id_arg w = (Ok tt, w1)
    /\ (forall e, In e (stored w1) <->
                  In e (stored w)
                  /\ JsNumber.strict_eq (id e) (JsNumber.parseInt id_arg) = false)
    /\ getEntryById id_arg w1 = (Ok None, w2)
    /\ removeEntryFromLocalStorage id_arg w2 = (Ok tt, w3)
    /\ localStorage w3 = localStorage w1.
Proof.
  rewrite removeEntryFromLocalStorage_run.
  eexists _, _, _. split; [reflexivity|]. split.
  - intros e. rewrite stored_set_localStorage, filter_In.
    now rewrite negb_true_iff.
  - rewrite getEntryById_run, removeEntryFromLocalStorage_run.
    rewrite stored_log_call, !stored_set_localStorage.
    rewrite find_filter_negb, filter_filter_same.
    repeat split.
Qed.

Lemma filter_all_true {A} (p : A -> bool) (l : list A) :
  (forall x, In x l -> p x = true) -> List.filter p l = l.
Proof.
  induction l as [|a l IH]; simpl; [reflexivity|]. intros H.
  rewrite (H a (or_introl eq_refl)). f_equal. apply IH. auto.
Qed.

(** A delete of an id that no stored record has returns without throwing
    and keeps every record. *)
Lemma removeEntryFromLocalStorage_absent (id_arg : string) (w : world) :
  (forall e, In e (stored w) ->
             JsNumber.strict_eq (id e) (JsNumber.parseInt id_arg) = false) ->
  exists w', removeEntryFromLocalStorage id_arg w = (Ok tt, w')
             /\ stored w' = stored w.
Proof.
  intros Habsent. rewrite removeEntryFromLocalStorage_run.
  eexists. split; [reflexivity|]. rewrite stored_set_localStorage.
  apply filter_all_true. intros e He. now rewrite (Habsent e He).
Qed.

Lemma NoDup_map_filter {A B} (f : A -> B) (p : A -> bool) (l : list A) :
  NoDup (map f l) -> NoDup (map f (List.filter p l)).
Proof.
  induction l as [|a l IH]; simpl; [trivial|].
  intros Hnd. apply NoDup_cons in Hnd. destruct Hnd as [Hnotin Hnd].
  destruct (p a); simpl; [|auto].
  apply NoDup_cons. split; [|auto].
  intros Hin. apply Hnotin. apply list_elem_of_In.
  apply list_elem_of_In, in_map_iff in Hin.
  destruct Hin as (x & Hfx & Hx). apply filter_In in Hx.
  apply in_map_iff. exists x. tauto.
Qed.

Lemma map_id_insert_same (l : list entry) (i : nat) (x e : entry) :
  l !! i = Some x -> id x = id e -> map id (<[i := e]> l) = map id l.
Proof.
  revert i. induction l as [|a l IH]; intros [|i]; simpl; try discriminate.
  - intros [= ->] <-. reflexivity.
  - intros Hi Hid. f_equal. now apply IH.
Qed.

Lemma NoDup_ids_snoc (l : list entry) (e : entry) :
  NoDup (map id l) -> (forall x, In x l -> id x < id e) ->
  NoDup (map id (l ++ [e])).
Proof.
  intros Hnd Hlt. rewrite map_app. simpl.
  apply NoDup_app. split; [assumption|]. split.
  - intros i Hi Hie. apply list_elem_of_In in Hi. apply in_map_iff in Hi.
    destruct Hi as (x & <- & Hx).
    apply list_elem_of_In in Hie. destruct Hie as [Heq | []].
    specialize (Hlt x Hx). lia.
  - apply NoDup_singleton.
Qed.

Lemma run_op_keeps_ids_distinct (o : op) (w : world) :
  NoDup (map id (stored w)) -> NoDup (map id (stored (run_op o w))).
Proof.
  intros Hnd. destruct o as [f | e | i]; unfold run_op.
  - rewrite addEntryToLocalStorage_run. simpl.
    rewrite stored_set_localStorage.
    apply NoDup_ids_snoc; [assumption|]. simpl.
    destruct (stored w) as [|a l]; [intros x []|].
    intros x Hx.
    destruct (Math_max_is_max (id a) (map id l)) as [_ Hall].
    rewrite Forall_forall in Hall.
    assert (Hin : In (id x) (id a :: map id l)).
    { change (id a :: map id l) with (map id (a :: l)). now apply in_map. }
    rewrite <- list_elem_of_In in Hin.
    specialize (Hall (id x) Hin). simpl in Hall. lia.
  - rewrite updateEntryInLocalStorage_run.
    destruct (JsArray.findIndex _ (stored w)) as [k|] eqn:Hk; simpl;
      [|assumption].
    rewrite stored_set_localStorage.
    destruct (findIndex_Some _ _ _ Hk) as (x & Hx & Hpx & _).
    apply Z.eqb_eq in Hpx.
    now rewrite (map_id_insert_same _ _ x e Hx Hpx).
  - rewrite removeEntryFromLocalStorage_run. simpl.
    rewrite stored_set_localStorage. now apply NoDup_map_filter.
Qed.

(** C9. Started on an empty store, every sequence of inserts, updates and
    deletes through the localStorage backend leaves the ids of the stored
    records pairwise distinct. *)
Theorem ids_stay_distinct (ops : list op) (w : world) :
  NoDup (map id (stored (run_ops ops (set_localStorage None w)))).
Proof.
  unfold run_ops.
  assert (Hstart : NoDup (map id (stored (set_localStorage None w))))
    by constructor.
  revert Hstart. generalize (set_localStorage None w).
  induction ops as [|o ops IH]; intros w0 Hw0; simpl; [assumption|].
  apply IH. now apply run_op_keeps_ids_distinct.
Qed.

(** ** Strings *)

Lemma prefix_spec (t s : string) :
  String.prefix t s = true <-> exists post, s = (t ++ post)%string.
Proof.
  revert s. induction t as [|a t IH]; intros s; simpl.
  - destruct s; split; eauto.
  - destruct s as [|b s]; simpl.
    + split; [discriminate | intros [post Hpost]; discriminate].
    + destruct (ascii_dec a b) as [-> | Hne].
      * rewrite IH. split; intros [post Hpost]; exists post; congruence.
      * split; [discriminate|]. intros [post [= Hb _]]. congruence.
Qed.

Lemma includes_spec (s t : string) :
  JsString.includes s t = true <-> JsString.substring_of t s.
Proof.
  unfold JsString.substring_of.
  induction s as [|c s IH]; cbn [JsString.includes].
  - destruct (String.prefix t "") eqn:Hp.
    + split; [intros _ | reflexivity].
      apply prefix_spec in Hp. destruct Hp as [post Hpost].
      exists "", post. assumption.
    + split; [discriminate|]. intros (pre & post & Heq).
      destruct pre; simpl in Heq; [|discriminate].
      assert (String.prefix t "" = true) by (apply prefix_spec; eauto).
      congruence.
  - destruct (String.prefix t (String c s)) eqn:Hp.
    + split; [intros _ | reflexivity].
      apply prefix_spec in Hp. destruct Hp as [post Hpost].
      exists "", post. assumption.
    + rewrite IH. split.
      * intros (pre & post & ->). exists (String c pre), post. reflexivity.
      * intros (pre & post & Heq). destruct pre as [|c' pre]; simpl in Heq.
        -- assert (String.prefix t (String c s) = true)
             by (apply prefix_spec; eauto).
           congruence.
        -- injection Heq as _ ->. eauto.
Qed.

Lemma toLowerCase_empty (s : string) :
  JsString.toLowerCase s = "" <-> s = "".
Proof. destruct s; simpl; split; congruence. Qed.

Lemma truthy_spec (s : string) : JsString.truthy s = true <-> s <> "".
Proof.
  unfold JsString.truthy. rewrite negb_true_iff. apply String.eqb_neq.
Qed.

(** ** Stable sorting *)

Section SortFacts.
Context {A : Type} (cmp : A -> A -> option Z).

Lemma insert_sorted_Permutation (x : A) (l : list A) :
  Permutation (JsArray.insert_sorted cmp x l) (x :: l).
Proof.
  induction l as [|y l IH]; simpl; [reflexivity|].
  destruct (JsArray.goes_after cmp x y); [|reflexivity].
  rewrite IH. apply perm_swap.
Qed.

Lemma sort_Permutation (l : list A) : Permutation (JsArray.sort cmp l) l.
Proof.
  unfold JsArray.sort. induction l as [|x l IH]; simpl; [reflexivity|].
  rewrite insert_sorted_Permutation. now constructor.
Qed.

Variable D : A -> Prop.
Variable R : A -> A -> Prop.
Hypothesis R_trans : forall x y z, R x y -> R y z -> R x z.
Hypothesis after_R :
  forall x y, D x -> D y -> JsArray.goes_after cmp x y = true -> R y x.
Hypothesis before_R :
  forall x y, D x -> D y -> JsArray.goes_after cmp x y = false -> R x y.

Lemma insert_sorted_StronglySorted (x : A) (l : list A) :
  D x -> Forall D l -> StronglySorted R l ->
  StronglySorted R (JsArray.insert_sorted cmp x l).
Proof.
  intros Hx Hl Hs. induction Hs as [|y l Hs IH Hy]; simpl.
  - constructor; constructor.
  - inversion Hl as [|? ? Dy Dl]; subst.
    destruct (JsArray.goes_after cmp x y) eqn:Hg.
    + constructor; [now apply IH|].
      rewrite Forall_forall. intros z Hz.
      apply list_elem_of_In in Hz.
      apply (Permutation_in _ (insert_sorted_Permutation x l)) in Hz.
      destruct Hz as [<- | Hz]; [now apply after_R|].
      rewrite Forall_forall in Hy. apply Hy. now apply list_elem_of_In.
    + constructor; [now constructor|].
      assert (Hxy : R x y) by now apply before_R.
      constructor; [assumption|].
      rewrite Forall_forall in Hy |- *. intros z Hz.
      apply (R_trans x y z); auto.
Qed.

Lemma sort_StronglySorted (l : list A) :
  Forall D l -> StronglySorted R (JsArray.sort cmp l).
Proof.
  unfold JsArray.sort. induction 1 as [|x l Hx Hl IH]; simpl; [constructor|].
  apply insert_sorted_StronglySorted; [assumption | | assumption].
  rewrite Forall_forall in Hl |- *. intros z Hz. apply Hl.
  apply list_elem_of_In in Hz. apply list_elem_of_In.
  exact (Permutation_in _ (sort_Permutation l) Hz).
Qed.
End SortFacts.

(** ** Dates: [new Date(s)] reads what [toISOString] writes *)

Ltac euclid := Z.to_euclidean_division_equations; lia.

Lemma days_from_civil_from_days (z : Z) :
  let '(y, m, d) := JsDate.civil_from_days z in
  JsDate.days_from_civil y m d = z /\ 1 <= m <= 12 /\ 1 <= d <= 31.
Proof.
  unfold JsDate.civil_from_days.
  set (z' := z + 719468).
  set (era := z' / 146097).
  set (doe := z' - era * 146097).
  assert (Hdoe : 0 <= doe < 146097) by (subst doe era; euclid).
  set (yoe := (doe - doe / 1460 + doe / 36524 - doe / 146096) / 365).
  assert (Hyoe : 0 <= yoe <= 399) by (subst yoe; euclid).
  set (doy := doe - (365 * yoe + yoe / 4 - yoe / 100)).
  assert (Hdoy : 0 <= doy <= 365) by (subst doy yoe; euclid).
  set (mp := (5 * doy + 2) / 153).
  assert (Hmp : 0 <= mp <= 11) by (subst mp; euclid).
  set (d := doy - (153 * mp + 2) / 5 + 1).
  assert (Hd : 1 <= d <= 31) by (subst d mp; euclid).
  unfold JsDate.days_from_civil.
  destruct (mp <? 10) eqn:Hlt; [apply Z.ltb_lt in Hlt | apply Z.ltb_ge in Hlt].
  - replace (mp + 3 <=? 2) with false by (symmetry; apply Z.leb_gt; lia).
    replace (2 <? mp + 3) with true by (symmetry; apply Z.ltb_lt; lia).
    replace (mp + 3 - 3) with mp by lia.
    assert (He : (yoe + era * 400) / 400 = era) by euclid.
    rewrite He.
    replace (yoe + era * 400 - era * 400) with yoe by lia.
    split; [|lia]. subst d doy doe. lia.
  - replace (mp - 9 <=? 2) with true by (symmetry; apply Z.leb_le; lia).
    replace (2 <? mp - 9) with false by (symmetry; apply Z.ltb_ge; lia).
    replace (mp - 9 + 9) with mp by lia.
    replace (yoe + era * 400 + 1 - 1) with (yoe + era * 400) by lia.
    assert (He : (yoe + era * 400) / 400 = era) by euclid.
    rewrite He.
    replace (yoe + era * 400 - era * 400) with yoe by lia.
    split; [|lia]. subst d doy doe. lia.
Qed.

Lemma civil_year_bounds (z : Z) :
  -100000000 <= z <= 100000000 ->
  let '(y, _, _) := JsDate.civil_from_days z in -999999 <= y <= 999999.
Proof.
  intros Hz. unfold JsDate.civil_from_days.
  set (z' := z + 719468).
  set (era := z' / 146097).
  set (doe := z' - era * 146097).
  assert (Hdoe : 0 <= doe < 146097) by (subst doe era; euclid).
  set (yoe := (doe - doe / 1460 + doe / 36524 - doe / 146096) / 365).
  assert (Hyoe : 0 <= yoe <= 399) by (subst yoe; euclid).
  assert (Hera : -2000 <= era <= 2000) by (subst era z'; euclid).
  destruct (_ <=? 2); lia.
Qed.

Lemma append_assoc (a b c : string) : ((a ++ b) ++ c = a ++ (b ++ c))%string.
Proof. induction a as [|x a IH]; simpl; [reflexivity | now rewrite IH]. Qed.

Lemma digit_val_digit_char (d : Z) :
  0 <= d <= 9 -> JsNumber.digit_val 10 (JsDate.digit_char d) = Some d.
Proof.
  intros Hd.
  assert (H : d = 0 \/ d = 1 \/ d = 2 \/ d = 3 \/ d = 4 \/ d = 5 \/ d = 6
              \/ d = 7 \/ d = 8 \/ d = 9) by lia.
  repeat (destruct H as [-> | H]; [reflexivity|]). subst d. reflexivity.
Qed.

Lemma pad_app (w : nat) (v : Z) (acc : string) :
  JsDate.pad w v acc = (JsDate.pad w v "" ++ acc)%string.
Proof.
  revert v acc. induction w as [|w IH]; intros v acc; simpl; [reflexivity|].
  rewrite IH, (IH _ (String _ "")), append_assoc. reflexivity.
Qed.

Lemma take_digits_snoc (w : nat) (a : Z) (s : string) :
  JsDate.take_digits (S w) a s
  = match JsDate.take_digits w a s with
    | Some (a', r) => JsDate.take_digits 1 a' r
    | None => None
    end.
Proof.
  revert a s. induction w as [|w IH]; intros a s; [reflexivity|].
  cbn [JsDate.take_digits] in *. destruct s as [|c s]; [reflexivity|].
  destruct (JsNumber.digit_val 10 c) as [d|]; [|reflexivity].
  apply (IH (a * 10 + d) s).
Qed.

Lemma take_digits_pad (w : nat) (v a : Z) (rest : string) :
  0 <= v < 10 ^ Z.of_nat w ->
  JsDate.take_digits w a (JsDate.pad w v rest)
  = Some (a * 10 ^ Z.of_nat w + v, rest).
Proof.
  revert v a rest. induction w as [|w IH]; intros v a rest Hv.
  - simpl in *. f_equal; f_equal; lia.
  - rewrite take_digits_snoc. cbn [JsDate.pad].
    rewrite Nat2Z.inj_succ, Z.pow_succ_r in * by lia.
    rewrite IH by euclid.
    cbn [JsDate.take_digits].
    rewrite digit_val_digit_char by euclid.
    f_equal; f_equal; euclid.
Qed.

Lemma pad_head (w : nat) (v : Z) (acc : string) :
  exists k r, 0 <= k <= 9 /\ JsDate.pad (S w) v acc = String (JsDate.digit_char k) r.
Proof.
  revert v acc. induction w as [|w IH]; intros v acc.
  - exists (v mod 10), acc. split; [euclid | reflexivity].
  - change (JsDate.pad (S (S w)) v acc)
      with (JsDate.pad (S w) (v / 10) (String (JsDate.digit_char (v mod 10)) acc)).
    apply IH.
Qed.

Lemma take_year_year_string (y : Z) (rest : string) :
  -999999 <= y <= 999999 ->
  JsDate.take_year (JsDate.year_string y ++ rest) = Some (y, rest).
Proof.
  intros Hy. unfold JsDate.year_string.
  destruct ((0 <=? y) && (y <=? 9999)) eqn:Hr.
  - apply andb_true_iff in Hr. destruct Hr as [H0 H1].
    apply Z.leb_le in H0, H1.
    rewrite <- pad_app.
    destruct (pad_head 3 y rest) as (k & r & Hk & Heq).
    assert (Ht : JsDate.take_year (JsDate.pad 4 y rest)
                 = JsDate.take_digits 4 0 (JsDate.pad 4 y rest)).
    { rewrite Heq.
      assert (H : k = 0 \/ k = 1 \/ k = 2 \/ k = 3 \/ k = 4 \/ k = 5 \/ k = 6
                  \/ k = 7 \/ k = 8 \/ k = 9) by lia.
      repeat (destruct H as [-> | H]; [reflexivity|]). subst k. reflexivity. }
    rewrite Ht, take_digits_pad by (simpl; lia). f_equal; f_equal; lia.
  - assert (Hout : y < 0 \/ 9999 < y).
    { apply andb_false_iff in Hr.
      destruct Hr as [H | H]; [apply Z.leb_gt in H | apply Z.leb_gt in H]; lia. }
    destruct (y <? 0) eqn:Hneg; [apply Z.ltb_lt in Hneg | apply Z.ltb_ge in Hneg].
    + cbn [append JsDate.take_year]. rewrite <- pad_app.
      rewrite take_digits_pad by (simpl; lia).
      replace (0 * 10 ^ Z.of_nat 6 + Z.abs y =? 0) with false
        by (symmetry; apply Z.eqb_neq; lia).
      f_equal; f_equal; lia.
    + cbn [append JsDate.take_year]. rewrite <- pad_app.
      rewrite take_digits_pad by (simpl; lia).
      f_equal; f_equal; lia.
Qed.

Lemma expect_head (c : ascii) (s : string) :
  JsDate.expect c (String c s) = Some s.
Proof. unfold JsDate.expect. now rewrite Ascii.eqb_refl. Qed.

Lemma parse_toISOString (t : Z) :
  Z.abs t <= JsDate.maxTime -> JsDate.parse (JsDate.toISOString t) = Some t.
Proof.
  intros Ht. unfold JsDate.maxTime in Ht.
  unfold JsDate.toISOString, JsDate.iso_date, JsDate.iso_time, JsDate.msPerDay.
  set (z := t / 86400000).
  set (ms := t mod 86400000).
  assert (Hz : -100000000 <= z <= 100000000) by (subst z; euclid).
  assert (Hms : 0 <= ms < 86400000) by (subst ms; euclid).
  pose proof (days_from_civil_from_days z) as Hround.
  pose proof (civil_year_bounds z Hz) as Hyear.
  destruct (JsDate.civil_from_days z) as [[y m] d] eqn:Hc.
  destruct Hround as (Hdays & Hm & Hd).
  rewrite !append_assoc. unfold JsDate.parse.
  rewrite take_year_year_string by assumption.
  cbn [JsDate.bind_opt append]. rewrite expect_head. cbn [JsDate.bind_opt].
  rewrite <- pad_app, take_digits_pad by (simpl; lia).
  cbn [JsDate.bind_opt append]. rewrite expect_head. cbn [JsDate.bind_opt].
  rewrite <- pad_app, take_digits_pad by (simpl; lia).
  cbn [JsDate.bind_opt append]. rewrite expect_head. cbn [JsDate.bind_opt].
  rewrite <- pad_app, take_digits_pad by (simpl; euclid).
  cbn [JsDate.bind_opt append]. rewrite expect_head. cbn [JsDate.bind_opt].
  rewrite <- pad_app, take_digits_pad by (simpl; euclid).
  cbn [JsDate.bind_opt append]. rewrite expect_head. cbn [JsDate.bind_opt].
  rewrite <- pad_app, take_digits_pad by (simpl; euclid).
  cbn [JsDate.bind_opt append]. rewrite expect_head. cbn [JsDate.bind_opt].
  rewrite <- pad_app, take_digits_pad by (simpl; euclid).
  cbn [JsDate.bind_opt append]. rewrite expect_head. cbn [JsDate.bind_opt].
  cbn [String.eqb andb]. change (Z.of_nat 2) with 2. change (Z.of_nat 3) with 3.
  replace (0 * 10 ^ 2 + m) with m by lia.
  replace (0 * 10 ^ 2 + d) with d by lia.
  unfold JsDate.date_exists. rewrite Hdays, Hc, !Z.eqb_refl. cbn [andb].
  replace (0 * 10 ^ 2 + ms / 3600000 <=? 23) with true
    by (symmetry; apply Z.leb_le; euclid).
  replace (0 * 10 ^ 2 + ms / 60000 mod 60 <=? 59) with true
    by (symmetry; apply Z.leb_le; euclid).
  replace (0 * 10 ^ 2 + ms / 1000 mod 60 <=? 59) with true
    by (symmetry; apply Z.leb_le; euclid).
  cbn [andb orb].
  replace (z * JsDate.msPerDay + (0 * 10 ^ 2 + ms / 3600000) * 3600000
           + (0 * 10 ^ 2 + ms / 60000 mod 60) * 60000
           + (0 * 10 ^ 2 + ms / 1000 mod 60) * 1000
           + (0 * 10 ^ 3 + ms mod 1000)) with t
    by (unfold JsDate.msPerDay; subst z ms; euclid).
  unfold JsDate.TimeClip, JsDate.maxTime.
  replace (Z.abs t <=? 8640000000000000) with true
    by (symmetry; apply Z.leb_le; lia).
  reflexivity.
Qed.

(** ** The query layer *)

Lemma substring_of_empty (t : string) :
  JsString.substring_of t "" -> t = "".
Proof.
  intros (pre & post & Heq). destruct pre; [|discriminate].
  destruct t; [reflexivity | discriminate].
Qed.

Lemma matchesSearch_correct (searchTerm : string) (e : entry) :
  exists b, matchesSearch (JsString.toLowerCase searchTerm) e = Ok b
            /\ (b = true <-> spec_matchesSearch searchTerm e).
Proof.
  unfold matchesSearch, spec_matchesSearch, ci_substring.
  destruct (String.eqb_spec (JsString.toLowerCase searchTerm) "") as [He | Hne].
  { exists true. split; [reflexivity|]. split; [|reflexivity].
    intros _. left. now apply toLowerCase_empty. }
  assert (Hterm : searchTerm <> "") by (intros ->; now apply Hne).
  destruct (JsString.includes (JsString.toLowerCase (title e))
              (JsString.toLowerCase searchTerm)) eqn:Ht.
  { exists true. split; [reflexivity|]. split; [|reflexivity].
    intros _. right. left. now apply includes_spec. }
  assert (Hnt : ~ JsString.substring_of (JsString.toLowerCase searchTerm)
                    (JsString.toLowerCase (title e))).
  { rewrite <- includes_spec. congruence. }
  destruct (description e) as [d|] eqn:Hd; simpl.
  - destruct (JsString.truthy d) eqn:Htr; simpl.
    + eexists. split; [reflexivity|]. rewrite includes_spec. split.
      * intros H. right. right. eauto.
      * intros [? | [? | (d' & [= <-] & H)]]; [contradiction ..| assumption].
    + exists false. split; [reflexivity|]. split; [discriminate|].
      intros [? | [? | (d' & [= <-] & H)]]; [contradiction ..|].
      assert (d = "").
      { unfold JsString.truthy in Htr. apply negb_false_iff in Htr.
        now apply String.eqb_eq in Htr. }
      subst d. apply substring_of_empty in H. contradiction.
  - exists false. split; [reflexivity|]. split; [discriminate|].
    intros [? | [? | (d' & [=] & _)]]; contradiction.
Qed.

Lemma matchesType_correct (typeFilter : string) (e : entry) :
  matchesType typeFilter e = true <-> spec_matchesType typeFilter e.
Proof.
  unfold matchesType, spec_matchesType.
  rewrite orb_true_iff, !String.eqb_eq. reflexivity.
Qed.

Lemma matchesTag_correct (tagFilter : string) (e : entry) :
  exists b, matchesTag tagFilter e = Ok b
            /\ (b = true <-> spec_matchesTag tagFilter e).
Proof.
  unfold matchesTag, spec_matchesTag.
  destruct (String.eqb_spec tagFilter "all") as [-> | Hne].
  { exists true. split; [reflexivity|]. split; [now left | reflexivity]. }
  destruct (tags e) as [l|] eqn:Hl; simpl.
  - eexists. split; [reflexivity|]. rewrite existsb_exists. split.
    + intros (tag & Hin & Heq). apply String.eqb_eq in Heq. right. eauto.
    + intros [? | (l' & tag & [= <-] & Hin & Heq)]; [contradiction|].
      exists tag. split; [assumption|]. now apply String.eqb_eq.
  - exists false. split; [reflexivity|]. split; [discriminate|].
    intros [? | (l' & tag & [=] & _)]. contradiction.
Qed.

Lemma matchesAll_correct (searchTerm typeFilter tagFilter : string) (e : entry) :
  exists b,
    matchesAll (JsString.toLowerCase searchTerm) typeFilter tagFilter e = Ok b
    /\ (b = true <-> selected searchTerm typeFilter tagFilter e).
Proof.
  unfold matchesAll, selected.
  destruct (matchesSearch_correct searchTerm e) as (bs & -> & Hs).
  destruct (matchesTag_correct tagFilter e) as (bg & -> & Hg).
  simpl. eexists. split; [reflexivity|].
  rewrite !andb_true_iff, Hs, Hg, matchesType_correct. tauto.
Qed.

Lemma filterR_keeps {A} (p : A -> result bool) (P : A -> Prop) (l : list A) :
  (forall x, exists b, p x = Ok b /\ (b = true <-> P x)) ->
  exists kept, filterR p l = Ok kept /\ keeps P l kept.
Proof.
  intros Hp. induction l as [|x l (kept & Hk & Hkeeps)]; simpl.
  - exists []. split; [reflexivity | constructor].
  - destruct (Hp x) as (b & -> & Hb). rewrite Hk. simpl.
    destruct b.
    + exists (x :: kept). split; [reflexivity|].
      constructor; [now apply Hb | assumption].
    + exists kept. split; [reflexivity|].
      constructor; [|assumption]. intros HP. apply Hb in HP. discriminate.
Qed.

Lemma keeps_In {A} (P : A -> Prop) (l kept : list A) :
  keeps P l kept -> forall x, In x kept <-> In x l /\ P x.
Proof.
  induction 1 as [| x l kept HP _ IH | x l kept HP _ IH]; intros y; simpl.
  - tauto.
  - rewrite IH. split; [intros [<- | ?]; tauto | tauto].
  - rewrite IH. split; [tauto|]. intros [[<- | ?] ?]; tauto.
Qed.

Lemma byDateDesc_after (x y : entry) :
  dated x = true -> dated y = true ->
  JsArray.goes_after byDateDesc x y = true -> newest_first y x.
Proof.
  unfold dated, JsArray.goes_after, byDateDesc, newest_first.
  destruct (JsDate.parse (date x)) as [tx|]; [|discriminate].
  destruct (JsDate.parse (date y)) as [ty|]; [|discriminate].
  intros _ _ H. apply Z.ltb_lt in H. exists ty, tx. repeat split. lia.
Qed.

Lemma byDateDesc_before (x y : entry) :
  dated x = true -> dated y = true ->
  JsArray.goes_after byDateDesc x y = false -> newest_first x y.
Proof.
  unfold dated, JsArray.goes_after, byDateDesc, newest_first.
  destruct (JsDate.parse (date x)) as [tx|]; [|discriminate].
  destruct (JsDate.parse (date y)) as [ty|]; [|discriminate].
  intros _ _ H. apply Z.ltb_ge in H. exists tx, ty. repeat split. lia.
Qed.

Lemma newest_first_trans (x y z : entry) :
  newest_first x y -> newest_first y z -> newest_first x z.
Proof.
  intros (tx & ty & Hx & Hy & Hxy) (ty' & tz & Hy' & Hz & Hyz).
  exists tx, tz. repeat split; [assumption .. |].
  rewrite Hy in Hy'. injection Hy' as <-. lia.
Qed.

(** C1. When the date of every stored record is a timestamp, [loadEntries]
    returns without throwing and displays a sequence that holds exactly the
    stored records selected by the conjunction of the three predicates (the
    search term occurs, case-insensitively, in the title or the description,
    or is empty; the type filter is the record's type or [all]; the tag
    filter equals, case-insensitively, one of the record's tags or is
    [all]), ordered from the newest date to the oldest. *)
Theorem loadEntries_filters_and_sorts (w : world) :
  forallb dated (stored w) = true ->
  exists w' shown kept,
    loadEntries w = (Ok tt, w')
    /\ entriesList w' = Shown shown
    /\ keeps (selected (searchInput (bar w)) (typeFilter (bar w))
                       (tagFilter (bar w)))
             (stored w) kept
    /\ Permutation kept shown
    /\ StronglySorted newest_first shown.
Proof.
  intros Hdated.
  destruct (filterR_keeps
              (matchesAll (JsString.toLowerCase (searchInput (bar w)))
                          (typeFilter (bar w)) (tagFilter (bar w)))
              (selected (searchInput (bar w)) (typeFilter (bar w))
                        (tagFilter (bar w)))
              (stored w)
              (matchesAll_correct _ _ _)) as (kept & Hfilter & Hkeeps).
  exists (set_entriesList (Shown (JsArray.sort byDateDesc kept))
            (log_call GetItem (set_entriesList Loading w))),
    (JsArray.sort byDateDesc kept), kept.
  split; [|split; [reflexivity|split; [assumption|split]]].
  - unfold loadEntries, try_catch, bind, modify, getAllEntries,
      getEntriesFromLocalStorage, getItem, get_world, lift, displayEntries, ret.
    simpl. fold (stored w). rewrite Hfilter. reflexivity.
  - symmetry. apply sort_Permutation.
  - apply (sort_StronglySorted byDateDesc (fun e => dated e = true) newest_first
             newest_first_trans byDateDesc_after byDateDesc_before).
    rewrite Forall_forall. intros e He. apply list_elem_of_In in He.
    apply (keeps_In _ _ _ Hkeeps) in He. destruct He as [He _].
    rewrite forallb_forall in Hdated. now apply Hdated.
Qed.

Lemma loadEntries_filters_and_sorts_witness :
  forallb dated (stored sampleWorld) = true
  /\ exists w' shown kept,
       loadEntries sampleWorld = (Ok tt, w')
       /\ entriesList w' = Shown shown
       /\ keeps (selected (searchInput (bar sampleWorld))
                          (typeFilter (bar sampleWorld))
                          (tagFilter (bar sampleWorld)))
                (stored sampleWorld) kept
       /\ Permutation kept shown
       /\ StronglySorted newest_first shown.
Proof.
  split; [reflexivity|].
  apply (loadEntries_filters_and_sorts sampleWorld). reflexivity.
Defined.

Example loadEntries_newest_first :
  entriesList (snd (loadEntries sampleWorld)) = Shown [samplePhoto; sampleReport].
Proof. reflexivity. Qed.

Lemma matchesSearch_never_throws (searchTerm : string) (e : entry) :
  exists b, matchesSearch searchTerm e = Ok b.
Proof.
  unfold matchesSearch.
  destruct (String.eqb searchTerm ""); [eauto|].
  destruct (JsString.includes _ searchTerm); [eauto|].
  destruct (description e) as [d|]; simpl; [|eauto].
  destruct (JsString.truthy d); simpl; eauto.
Qed.

(** C10. For a record without description and a search term that is not
    empty, the search predicate of the filter returns without throwing, and
    it holds exactly when the term occurs, case-insensitively, in the
    title. *)
Theorem matchesSearch_without_description (searchTerm : string) (e : entry) :
  description e = None -> searchTerm <> "" ->
  exists b,
    matchesSearch (JsString.toLowerCase searchTerm) e = Ok b
    /\ (b = true <-> ci_substring searchTerm (title e)).
Proof.
  intros Hd Hterm.
  destruct (matchesSearch_correct searchTerm e) as (b & Hb & Hspec).
  exists b. split; [assumption|]. rewrite Hspec.
  unfold spec_matchesSearch. rewrite Hd. split.
  - intros [? | [? | (d & [=] & _)]]; [contradiction | assumption].
  - intros H. right. now left.
Qed.

Lemma matchesSearch_without_description_witness :
  description samplePhoto = None /\ "HOLI" <> ""
  /\ exists b,
       matchesSearch (JsString.toLowerCase "HOLI") samplePhoto = Ok b
       /\ (b = true <-> ci_substring "HOLI" (title samplePhoto)).
Proof.
  split; [reflexivity|]. split; [discriminate|].
  apply (matchesSearch_without_description "HOLI" samplePhoto);
    [reflexivity | discriminate].
Defined.

Example receiver_of_absent_description :
  result_bind (receiver (description samplePhoto))
    (fun d => Ok (JsString.toLowerCase d))
  = Throw TypeError
  /\ matchesSearch "holi" samplePhoto = Ok true
  /\ matchesSearch "beach" samplePhoto = Ok false.
Proof. repeat split. Qed.

(** ** The tag index *)

Lemma has_In (s : JsSet.t) (x : string) : JsSet.has s x = true <-> In x s.
Proof.
  unfold JsSet.has. rewrite existsb_exists. split.
  - intros (y & Hy & Heq). apply String.eqb_eq in Heq. now subst.
  - intros H. exists x. split; [assumption | apply String.eqb_refl].
Qed.

Lemma add_In (s : JsSet.t) (x y : string) :
  In y (JsSet.add s x) <-> In y s \/ y = x.
Proof.
  unfold JsSet.add. destruct (JsSet.has s x) eqn:Hh.
  - apply has_In in Hh. split; [tauto|]. intros [? | ->]; assumption.
  - rewrite in_app_iff. simpl. intuition congruence.
Qed.

Lemma add_NoDup (s : JsSet.t) (x : string) : NoDup s -> NoDup (JsSet.add s x).
Proof.
  intros Hnd. unfold JsSet.add. destruct (JsSet.has s x) eqn:Hh; [assumption|].
  apply NoDup_app. split; [assumption|]. split; [|apply NoDup_singleton].
  intros y Hy Hyx. apply list_elem_of_In in Hy, Hyx.
  destruct Hyx as [<- | []].
  apply has_In in Hy. congruence.
Qed.

Lemma add_all_correct (l : list string) (s : JsSet.t) :
  let s' := fold_left (fun s tag => JsSet.add s (JsString.toLowerCase tag)) l s in
  (NoDup s -> NoDup s')
  /\ forall y, In y s' <->
               In y s \/ exists tag, In tag l /\ y = JsString.toLowerCase tag.
Proof.
  revert s. induction l as [|t l IH]; intros s; simpl.
  - split; [trivial|]. intros y. split; [tauto|].
    intros [? | (tag & [] & _)]. assumption.
  - destruct (IH (JsSet.add s (JsString.toLowerCase t))) as [Hnd Hin].
    split; [intros H; apply Hnd; now apply add_NoDup|].
    intros y. rewrite Hin, add_In. split.
    + intros [[? | ->] | (tag & Htag & ->)]; eauto 6.
    + intros [? | (tag & [<- | Htag] & ->)]; eauto 6.
Qed.

Lemma addTagsOf_correct (e : entry) (s : JsSet.t) :
  exists s', addTagsOf e s = Ok s'
             /\ (NoDup s -> NoDup s')
             /\ forall y, In y s' <-> In y s \/ tag_of e y.
Proof.
  unfold addTagsOf, tag_of.
  destruct (tags e) as [l|] eqn:Hl; simpl.
  - destruct l as [|t l]; simpl.
    + exists s. split; [reflexivity|]. split; [trivial|].
      intros y. split; [tauto|].
      intros [? | (l' & tag & [= <-] & [] & _)]. assumption.
    + eexists. split; [reflexivity|].
      destruct (add_all_correct (t :: l) s) as [Hnd Hin]. simpl in Hnd, Hin.
      split; [assumption|]. intros y. rewrite Hin. split.
      * intros [? | (tag & Htag & ->)]; [tauto|]. right. eauto.
      * intros [? | (l' & tag & [= <-] & Htag & ->)]; [tauto|]. right. eauto.
  - exists s. split; [reflexivity|]. split; [trivial|].
    intros y. split; [tauto|]. intros [? | (l' & tag & [=] & _)]. assumption.
Qed.

Lemma collectTags_correct (entries : list entry) (s : JsSet.t) :
  exists s', collectTags entries s = Ok s'
             /\ (NoDup s -> NoDup s')
             /\ forall y, In y s' <->
                          In y s \/ exists e, In e entries /\ tag_of e y.
Proof.
  revert s. induction entries as [|e entries IH]; intros s; simpl.
  - exists s. split; [reflexivity|]. split; [trivial|].
    intros y. split; [tauto|]. intros [? | (e & [] & _)]. assumption.
  - destruct (addTagsOf_correct e s) as (s1 & -> & Hnd1 & Hin1). simpl.
    destruct (IH s1) as (s' & -> & Hnd & Hin).
    exists s'. split; [reflexivity|]. split; [auto|].
    intros y. rewrite Hin, Hin1. split.
    + intros [[? | ?] | (e' & ? & ?)]; eauto 6.
    + intros [? | (e' & [<- | ?] & ?)]; eauto 6.
Qed.

Lemma ltb_lt (a b : string) : String.ltb a b = true <-> String_as_OT.lt a b.
Proof.
  unfold String.ltb. rewrite <- String_as_OT.cmp_lt. unfold String_as_OT.cmp.
  destruct (String.compare a b); split; congruence.
Qed.

Lemma ltb_false (a b : string) :
  String.ltb a b = false -> a = b \/ String_as_OT.lt b a.
Proof.
  unfold String.ltb. destruct (String.compare a b) eqn:Hc; [| discriminate |].
  - intros _. left. now apply String.compare_eq_iff.
  - intros _. right. apply String_as_OT.cmp_lt. unfold String_as_OT.cmp.
    rewrite String.compare_antisym, Hc. reflexivity.
Qed.

Lemma ltb_asym (a b : string) : String.ltb a b = true -> String.ltb b a = false.
Proof.
  unfold String.ltb. rewrite (String.compare_antisym a b).
  destruct (String.compare b a); simpl; congruence.
Qed.

Lemma string_le_trans (x y z : string) :
  string_le x y -> string_le y z -> string_le x z.
Proof.
  unfold string_le. intros Hxy Hyz.
  destruct (String.ltb z x) eqn:Hzx; [|reflexivity].
  apply ltb_false in Hxy, Hyz. apply ltb_lt in Hzx.
  destruct Hxy as [-> | Hxy], Hyz as [-> | Hyz].
  - exfalso. eapply String_as_OT.lt_not_eq; [exact Hzx | reflexivity].
  - exfalso. pose proof (String_as_OT.lt_trans _ _ _ Hzx Hyz) as H.
    eapply String_as_OT.lt_not_eq; [exact H | reflexivity].
  - exfalso. pose proof (String_as_OT.lt_trans _ _ _ Hzx Hxy) as H.
    eapply String_as_OT.lt_not_eq; [exact H | reflexivity].
  - exfalso.
    pose proof (String_as_OT.lt_trans _ _ _ Hzx
                  (String_as_OT.lt_trans _ _ _ Hxy Hyz)) as H.
    eapply String_as_OT.lt_not_eq; [exact H | reflexivity].
Qed.

Lemma defaultCompare_after (x y : string) :
  True -> True ->
  JsArray.goes_after JsArray.defaultCompare x y = true -> string_le y x.
Proof.
  unfold JsArray.goes_after, JsArray.defaultCompare, string_le. intros _ _.
  destruct (String.ltb x y); simpl; [discriminate | reflexivity].
Qed.

Lemma defaultCompare_before (x y : string) :
  True -> True ->
  JsArray.goes_after JsArray.defaultCompare x y = false -> string_le x y.
Proof.
  unfold JsArray.goes_after, JsArray.defaultCompare, string_le. intros _ _.
  destruct (String.ltb x y) eqn:Hxy; simpl; [intros _; now apply ltb_asym|].
  destruct (String.ltb y x); simpl; [discriminate | reflexivity].
Qed.

Lemma sorted_NoDup_strict (l : list string) :
  StronglySorted string_le l -> NoDup l -> StronglySorted String_as_OT.lt l.
Proof.
  induction 1 as [|a l Hs IH Ha]; intros Hnd; [constructor|].
  apply NoDup_cons in Hnd. destruct Hnd as [Hnotin Hnd].
  constructor; [auto|].
  rewrite Forall_forall in Ha |- *. intros b Hb.
  specialize (Ha b Hb). unfold string_le in Ha.
  apply ltb_false in Ha. destruct Ha as [-> | Hlt]; [contradiction | assumption].
Qed.

(** C6. [loadTags] returns without throwing, and the options that it writes
    after [all] are the tag index: it has an entry exactly for every tag of
    every stored record, folded to lower case, it has no entry twice, and
    it is sorted lexicographically. *)
Theorem loadTags_index (w : world) :
  exists w' index,
    loadTags w = (Ok tt, w')
    /\ tagOptions (bar w') = "all" :: index
    /\ tagIndex (stored w) = Ok index
    /\ (forall t, In t index <-> exists e, In e (stored w) /\ tag_of e t)
    /\ NoDup index
    /\ StronglySorted String_as_OT.lt index.
Proof.
  destruct (collectTags_correct (stored w) JsSet.empty) as (s & Hs & Hnd & Hin).
  specialize (Hnd (NoDup_nil_2 (A:=string))).
  pose proof (sort_Permutation JsArray.defaultCompare (JsSet.toArray s)) as Hperm.
  eexists _, (JsArray.sort JsArray.defaultCompare (JsSet.toArray s)).
  split; [|split; [|split; [|split; [|split]]]].
  - unfold loadTags, try_catch, bind, modify, getAllEntries,
      getEntriesFromLocalStorage, getItem, get_world, lift, ret.
    simpl. fold (stored w). rewrite Hs. reflexivity.
  - reflexivity.
  - unfold tagIndex. rewrite Hs. reflexivity.
  - intros t. split.
    + intros Ht. apply (Permutation_in _ Hperm), Hin in Ht.
      destruct Ht as [[] | Ht]. assumption.
    + intros Ht. apply (Permutation_in _ (Permutation_sym Hperm)).
      apply Hin. now right.
  - rewrite Hperm. exact Hnd.
  - apply sorted_NoDup_strict.
    + apply (sort_StronglySorted JsArray.defaultCompare (fun _ => True)
               string_le string_le_trans defaultCompare_after
               defaultCompare_before).
      rewrite Forall_forall. trivial.
    + rewrite Hperm. exact Hnd.
Qed.

Example tagIndex_scenario :
  tagIndex [sampleReport] = Ok ["urgent"; "work"]
  /\ tagOptions (bar (snd (loadTags sampleWorld)))
     = ["all"; "family"; "urgent"; "work"].
Proof. split; reflexivity. Qed.

(** ** The upload and save path *)

Lemma media_type_not_inherited (s : string) :
  is_media_type s = true ->
  existsb (String.eqb s) Object_prototype_names = false.
Proof.
  intros Hm. destruct (existsb _ Object_prototype_names) eqn:He; [|reflexivity].
  apply existsb_exists in He. destruct He as (k & Hk & Heq).
  apply String.eqb_eq in Heq. subst k.
  unfold Object_prototype_names in Hk. simpl in Hk.
  repeat (destruct Hk as [<- | Hk]; [vm_compute in Hm; discriminate|]).
  destruct Hk.
Qed.

Lemma own_property_None (key : string) (o : list (string * string)) :
  own_property key o = None <-> ~ In key (map fst o).
Proof.
  induction o as [|[k v] o IH]; simpl; [tauto|].
  destruct (String.eqb_spec key k) as [-> | Hne].
  - split; [discriminate | tauto].
  - rewrite IH. intuition congruence.
Qed.

Lemma disallowed_type_is_falsy (s : string) :
  is_media_type s = true -> ~ In s allowed_content_types ->
  property_truthy (ALLOWED_TYPES_get s) = false.
Proof.
  intros Hm Hout. unfold ALLOWED_TYPES_get.
  apply own_property_None in Hout. rewrite Hout.
  now rewrite (media_type_not_inherited s Hm).
Qed.

(** X23. When the file of the upload has a size above 10 MiB, or a type
    that is a media type ([type/subtype], or empty) outside the allowed
    ones, [handleUpload] returns without throwing, having shown an error
    message and nothing else: the item in localStorage is the one from
    before and no call of the storage was made. *)
Theorem handleUpload_rejects (now : Z) (w : world) (file : File.t)
    (rest : list File.t) :
  files (form w) = file :: rest ->
  is_media_type (File.type file) = true
  /\ ~ In (File.type file) allowed_content_types
  \/ MAX_FILE_SIZE < File.size file ->
  exists message,
    handleUpload now w = (Ok tt, add_toast (mkToast "Error" message "danger") w)
    /\ localStorage (add_toast (mkToast "Error" message "danger") w)
       = localStorage w
    /\ storageLog (add_toast (mkToast "Error" message "danger") w)
       = storageLog w.
Proof.
  intros Hfiles Hbad.
  unfold handleUpload, bind, get_world. rewrite Hfiles.
  destruct (JsString.truthy (JsString.trim (titleInput (form w)))); simpl;
    [|eexists; repeat split].
  destruct (property_truthy (ALLOWED_TYPES_get (File.type file))) eqn:Htype;
    simpl; [|eexists; repeat split].
  destruct Hbad as [[Hmedia Hout] | Hsize].
  - rewrite (disallowed_type_is_falsy _ Hmedia Hout) in Htype. discriminate.
  - apply Z.ltb_lt in Hsize. rewrite Hsize. eexists. repeat split.
Qed.

Lemma handleUpload_rejects_witness :
  files (form (uploading bigPdf sampleWorld)) = bigPdf :: []
  /\ MAX_FILE_SIZE < File.size bigPdf
  /\ exists message,
       handleUpload 1717236000000 (uploading bigPdf sampleWorld)
       = (Ok tt, add_toast (mkToast "Error" message "danger")
                   (uploading bigPdf sampleWorld))
       /\ localStorage (add_toast (mkToast "Error" message "danger")
                          (uploading bigPdf sampleWorld))
          = localStorage (uploading bigPdf sampleWorld)
       /\ storageLog (add_toast (mkToast "Error" message "danger")
                        (uploading bigPdf sampleWorld))
          = storageLog (uploading bigPdf sampleWorld).
Proof.
  split; [reflexivity|]. split; [reflexivity|].
  apply (handleUpload_rejects 1717236000000 (uploading bigPdf sampleWorld)
           bigPdf []); [reflexivity|].
  right. reflexivity.
Defined.

Example handleUpload_rejections :
  toasts (snd (handleUpload 0 (uploading bigPdf freshWorld)))
  = [mkToast "Error" "File size exceeds 10MB limit" "danger"]
  /\ toasts (snd (handleUpload 0 (uploading programFile freshWorld)))
     = [mkToast "Error" "File type not allowed" "danger"]
  /\ stored (snd (handleUpload 1704103200000 (uploading smallPdf freshWorld)))
     = [mkEntry 1 (mkFields "Report" (Some "") (Some []) "report-v2.pdf"
                     (Some "pdf") "document"
                     "data:application/pdf;base64,JVBERi0y"
                     "2024-01-01T10:00:00.000Z")].
Proof. repeat split. Qed.

(** C4, as the code has it.  A save of an edit that passes the checks and
    reads its file returns without throwing and replaces the stored record
    of the edited id by a record of the same id whose date is the time of
    the save. *)
Theorem handleUpload_edit_stamps_date (now : Z) (w : world) (file : File.t)
    (rest : list File.t) (data i : string) (n : Z) (j : nat) (x : entry) :
  files (form w) = file :: rest ->
  form_accepted w file = true ->
  File.content file = Some data ->
  currentEntryId w = Some i ->
  JsNumber.parseInt i = Some n ->
  stored w !! j = Some x -> id x = n ->
  (forall k y, (k < j)%nat -> stored w !! k = Some y -> id y <> n) ->
  exists w' e',
    handleUpload now w = (Ok tt, w')
    /\ stored w' !! j = Some e'
    /\ id e' = n
    /\ date e' = JsDate.toISOString now
    /\ forall k, k <> j -> stored w' !! k = stored w !! k.
Proof.
  intros Hfiles Hform Hdata Hcur Hparse Hj Hid Hfirst.
  unfold form_accepted in Hform.
  apply andb_true_iff in Hform. destruct Hform as [Hform Hsize].
  apply andb_true_iff in Hform. destruct Hform as [Htitle Htype].
  apply negb_true_iff in Hsize.
  assert (Hi : JsString.truthy i = true).
  { destruct i; [discriminate Hparse | reflexivity]. }
  unfold handleUpload, bind, get_world. rewrite Hfiles, Htitle, Htype, Hsize.
  cbn [negb]. unfold try_catch, bind, readFileAsDataURL, ret.
  rewrite Hdata, Hcur. cbn [string_truthy JsNumber.parseInt_of]. rewrite Hi.
  rewrite Hparse. unfold updateEntry_numbered, updateEntry.
  match goal with
  | |- context [updateEntryInLocalStorage ?e w] =>
      rewrite (updateEntryInLocalStorage_present e w j x Hj Hid Hfirst)
  end.
  eexists _, _. split; [reflexivity|]. cbn.
  split; [apply list_lookup_insert_eq; eapply lookup_lt_Some; eassumption|].
  split; [reflexivity|]. split; [reflexivity|].
  intros k Hk. apply list_lookup_insert_ne. congruence.
Qed.

Lemma handleUpload_edit_stamps_date_witness :
  files (form editingReport) = smallPdf :: []
  /\ form_accepted editingReport smallPdf = true
  /\ File.content smallPdf = Some "data:application/pdf;base64,JVBERi0y"
  /\ currentEntryId editingReport = Some "1"
  /\ JsNumber.parseInt "1" = Some 1
  /\ stored editingReport !! O = Some sampleReport
  /\ id sampleReport = 1
  /\ exists w' e',
       handleUpload 1717236000000 editingReport = (Ok tt, w')
       /\ stored w' !! O = Some e'
       /\ id e' = 1
       /\ date e' = JsDate.toISOString 1717236000000
       /\ forall k, k <> O -> stored w' !! k = stored editingReport !! k.
Proof.
  repeat (split; [reflexivity|]).
  apply (handleUpload_edit_stamps_date 1717236000000 editingReport smallPdf []
           "data:application/pdf;base64,JVBERi0y" "1" 1 O sampleReport);
    try reflexivity.
  intros k y Hk. lia.
Defined.

(** C4, as it is stated, fails: the report stored on 2024-01-01 and saved
    again on 2024-06-01 carries the date of the save. *)
Lemma edit_keeps_date_counterexample :
  ~ edit_keeps_date 1717236000000 editingReport.
Proof.
  intros H.
  specialize (H "1" 1 sampleReport
                (mkEntry 1 (mkFields "Report" (Some "Annual figures")
                              (Some ["Work"; "URGENT"]) "report-v2.pdf"
                              (Some "pdf") "document"
                              "data:application/pdf;base64,JVBERi0y"
                              "2024-06-01T10:00:00.000Z"))
                eq_refl eq_refl eq_refl eq_refl).
  discriminate H.
Qed.

(** ** The calendar *)

Lemma renderCalendar_marks_all (tz year month : Z) :
  Forall (fun c => hasEntriesClass c = "has-entries")
         (renderCalendar tz year month).
Proof.
  unfold renderCalendar. rewrite Forall_forall. intros c Hc.
  apply list_elem_of_In, in_map_iff in Hc. destruct Hc as (i & <- & _).
  reflexivity.
Qed.

(** C5, evaluated.  With nothing stored, [renderCalendar] marks each of the
    31 days of January 2024 as having entries, while the promise it tests
    resolves to false for each of them.  And the resolved value itself
    follows the UTC day: in Kathmandu a note written on 2 January at 10:00
    is reported for 3 January and not for 2 January. *)
Theorem calendar_marks_diverge :
  length (renderCalendar 0 2024 0) = 31%nat
  /\ Forall (fun c => hasEntriesClass c = "has-entries"
                      /\ awaited 0 2024 0 (dayOfMonth c) freshWorld = Ok false)
            (renderCalendar 0 2024 0)
  /\ falls_on kathmandu morningNote 2024 0 2 = true
  /\ awaited kathmandu 2024 0 2 (set_localStorage (Some [morningNote]) freshWorld)
     = Ok false
  /\ falls_on kathmandu morningNote 2024 0 3 = false
  /\ awaited kathmandu 2024 0 3 (set_localStorage (Some [morningNote]) freshWorld)
     = Ok true.
Proof.
  split; [reflexivity|]. split; [|repeat split].
  rewrite Forall_forall. intros c Hc. split.
  - pose proof (renderCalendar_marks_all 0 2024 0) as H.
    rewrite Forall_forall in H. now apply H.
  - reflexivity.
Qed.

Example doesDateHaveEntries_utc_host :
  awaited 0 2024 0 1 sampleWorld = Ok true
  /\ awaited 0 2024 0 2 sampleWorld = Ok true
  /\ awaited 0 2024 0 3 sampleWorld = Ok false
  /\ fst (doesDateHaveEntries None sampleWorld) = Ok false.
Proof. repeat split. Qed.


(** ** What the program stores keeps the store well formed *)

Lemma handleUpload_as_store_op (now : Z) (w : world) :
  localStorage (snd (handleUpload now w)) = localStorage w
  \/ exists f,
       date f = JsDate.toISOString now
       /\ (localStorage (snd (handleUpload now w))
           = localStorage (run_op (Insert f) w)
           \/ exists n, localStorage (snd (handleUpload now w))
                        = localStorage (run_op (Update (mkEntry n f)) w)).
Proof.
  unfold handleUpload, bind, get_world.
  destruct (files (form w)) as [|file rest]; [now left|].
  destruct (JsString.truthy (JsString.trim (titleInput (form w))));
    [|now left].
  destruct (property_truthy (ALLOWED_TYPES_get (File.type file)));
    [|now left].
  destruct (MAX_FILE_SIZE <? File.size file); [now left|].
  cbn [negb]. unfold try_catch, bind, readFileAsDataURL.
  destruct (File.content file) as [data|]; [|now left].
  unfold ret.
  destruct (string_truthy (currentEntryId w)).
  - destruct (JsNumber.parseInt_of (currentEntryId w)) as [n|];
      unfold updateEntry_numbered; [|now left].
    right.
    match goal with
    | |- context [updateEntry (mkEntry n ?F)] => exists F
    end.
    split; [reflexivity|]. right. exists n.
    unfold updateEntry, run_op. rewrite updateEntryInLocalStorage_run.
    destruct (JsArray.findIndex _ (stored w)); reflexivity.
  - right.
    match goal with
    | |- context [addEntry ?F] => exists F
    end.
    split; [reflexivity|]. left.
    unfold addEntry, run_op. rewrite addEntryToLocalStorage_run. reflexivity.
Qed.

Lemma forallb_insert {A} (p : A -> bool) (l : list A) (i : nat) (x : A) :
  forallb p l = true -> p x = true -> forallb p (<[i := x]> l) = true.
Proof.
  revert i. induction l as [|a l IH]; intros i Hl Hx; [assumption|].
  simpl in Hl. apply andb_true_iff in Hl. destruct Hl as [Ha Hl].
  destruct i as [|i]; simpl; apply andb_true_iff; auto.
Qed.

Lemma forallb_filter {A} (p q : A -> bool) (l : list A) :
  forallb p l = true -> forallb p (List.filter q l) = true.
Proof.
  induction l as [|a l IH]; simpl; [trivial|].
  intros H. apply andb_true_iff in H. destruct H as [Ha Hl].
  destruct (q a); simpl; [apply andb_true_iff|]; auto.
Qed.

Lemma run_op_keeps_dated (o : op) (w : world) :
  op_dated o ->
  forallb dated (stored w) = true ->
  forallb dated (stored (run_op o w)) = true.
Proof.
  intros Ho Hw. destruct o as [f | e | i]; unfold run_op; simpl in Ho.
  - rewrite addEntryToLocalStorage_run. simpl.
    rewrite stored_set_localStorage, forallb_app, Hw. simpl.
    now rewrite andb_true_r.
  - rewrite updateEntryInLocalStorage_run.
    destruct (JsArray.findIndex _ (stored w)); simpl; [|assumption].
    rewrite stored_set_localStorage. now apply forallb_insert.
  - rewrite removeEntryFromLocalStorage_run. simpl.
    rewrite stored_set_localStorage. now apply forallb_filter.
Qed.

Lemma stored_eq (w1 w2 : world) :
  localStorage w1 = localStorage w2 -> stored w1 = stored w2.
Proof. unfold stored. now intros ->. Qed.

(** A save stamps a date that [new Date] reads back, so the dates of the
    store stay timestamps, and the ids stay distinct. *)
Lemma handleUpload_keeps_store_well_formed (now : Z) (w : world) :
  Z.abs now <= JsDate.maxTime ->
  forallb dated (stored w) = true /\ NoDup (map id (stored w)) ->
  forallb dated (stored (snd (handleUpload now w))) = true
  /\ NoDup (map id (stored (snd (handleUpload now w)))).
Proof.
  intros Hnow [Hdated Hids].
  destruct (handleUpload_as_store_op now w)
    as [Heq | (f & Hf & [Heq | (n & Heq)])];
    rewrite (stored_eq _ _ Heq); [tauto | |].
  - split; [apply run_op_keeps_dated | apply run_op_keeps_ids_distinct];
      try assumption.
    unfold op_dated, dated. simpl. now rewrite Hf, parse_toISOString.
  - split; [apply run_op_keeps_dated | apply run_op_keeps_ids_distinct];
      try assumption.
    unfold op_dated, dated. simpl. now rewrite Hf, parse_toISOString.
Qed.

(** * Further properties of the code *)

(** ** Ids as text *)

Lemma digits_of_S (f : nat) (n : Z) (acc : string) :
  digits_of (S f) n acc
  = if n <? 10 then String (JsDate.digit_char (n mod 10)) acc
    else digits_of f (n / 10) (String (JsDate.digit_char (n mod 10)) acc).
Proof. reflexivity. Qed.

Lemma digits_of_read (f : nat) (n : Z) (acc : string) :
  0 <= n < 2 ^ Z.of_nat (S f) ->
  JsNumber.read_digits 10 None (digits_of (S f) n acc)
  = JsNumber.read_digits 10 (Some n) acc.
Proof.
  revert n acc. induction f as [|f IH]; intros n acc Hn.
  - change (2 ^ Z.of_nat 1) with 2 in Hn. rewrite digits_of_S.
    replace (n <? 10) with true by (symmetry; apply Z.ltb_lt; lia).
    cbn [JsNumber.read_digits]. rewrite digit_val_digit_char by euclid.
    f_equal; f_equal; euclid.
  - rewrite digits_of_S. destruct (n <? 10) eqn:Hlt.
    + apply Z.ltb_lt in Hlt. cbn [JsNumber.read_digits].
      rewrite digit_val_digit_char by euclid. f_equal; f_equal; euclid.
    + apply Z.ltb_ge in Hlt.
      rewrite Nat2Z.inj_succ, Z.pow_succ_r in Hn by lia.
      rewrite IH by euclid.
      cbn [JsNumber.read_digits]. rewrite digit_val_digit_char by euclid.
      f_equal; f_equal; euclid.
Qed.

Lemma digits_of_head (f : nat) (n : Z) (acc : string) :
  exists k r, 0 <= k <= 9
              /\ digits_of (S f) n acc = String (JsDate.digit_char k) r
              /\ (r = acc \/ exists k' r', 0 <= k' <= 9
                                          /\ r = String (JsDate.digit_char k') r').
Proof.
  revert n acc. induction f as [|f IH]; intros n acc.
  - rewrite digits_of_S. exists (n mod 10), acc.
    split; [euclid|]. split; [now destruct (n <? 10) | now left].
  - rewrite digits_of_S. destruct (n <? 10).
    + exists (n mod 10), acc. split; [euclid|]. split; [reflexivity | now left].
    + destruct (IH (n / 10) (String (JsDate.digit_char (n mod 10)) acc))
        as (k & r & Hk & Heq & Hr).
      exists k, r. split; [assumption|]. split; [exact Heq|].
      right. destruct Hr as [-> | Hr]; [|exact Hr].
      exists (n mod 10), acc. split; [euclid | reflexivity].
Qed.

Ltac digit_cases k :=
  let H := fresh in
  assert (H : k = 0 \/ k = 1 \/ k = 2 \/ k = 3 \/ k = 4 \/ k = 5 \/ k = 6
              \/ k = 7 \/ k = 8 \/ k = 9) by lia;
  repeat (destruct H as [-> | H]; [first [reflexivity | exfalso; lia]|]);
  subst k; first [reflexivity | exfalso; lia].

Lemma read_unsigned_digits (k : Z) (r acc : string) :
  0 <= k <= 9 ->
  (r = acc \/ exists k' r', 0 <= k' <= 9 /\ r = String (JsDate.digit_char k') r') ->
  acc = "" ->
  JsNumber.read_unsigned (String (JsDate.digit_char k) r)
  = JsNumber.read_digits 10 None (String (JsDate.digit_char k) r).
Proof.
  intros Hk Hr ->. unfold JsNumber.read_unsigned.
  assert (Hs : JsNumber.strip_hex_prefix (String (JsDate.digit_char k) r) = None).
  { destruct Hr as [-> | (k' & r' & Hk' & ->)]; [digit_cases k|].
    assert (Hz : k = 0 \/ 1 <= k <= 9) by lia.
    destruct Hz as [-> | Hz]; [digit_cases k' | digit_cases k]. }
  now rewrite Hs.
Qed.

Lemma log2_fuel (n : Z) : 0 <= n -> n < 2 ^ Z.of_nat (S (Z.to_nat (Z.log2 n))).
Proof.
  intros Hn. rewrite Nat2Z.inj_succ, Z2Nat.id by apply Z.log2_nonneg.
  destruct (Z.eq_dec n 0) as [-> | Hne]; [reflexivity|].
  apply Z.log2_spec. lia.
Qed.

Lemma parseInt_Number_toString (n : Z) :
  JsNumber.parseInt (Number_toString n) = Some n.
Proof.
  unfold Number_toString. destruct (n <? 0) eqn:Hneg.
  - apply Z.ltb_lt in Hneg.
    pose proof (log2_fuel (- n) ltac:(lia)) as Hfuel.
    set (f := Z.to_nat (Z.log2 (- n))) in *.
    destruct (digits_of_head f (- n) "") as (k & r & Hk & Heq & Hr).
    change (JsNumber.parseInt (String "-" (digits_of (S f) (- n) "")))
      with (option_map Z.opp (JsNumber.read_unsigned (digits_of (S f) (- n) ""))).
    rewrite Heq, (read_unsigned_digits k r "" Hk Hr eq_refl), <- Heq.
    rewrite digits_of_read by lia. simpl. f_equal. lia.
  - apply Z.ltb_ge in Hneg.
    pose proof (log2_fuel n Hneg) as Hfuel.
    set (f := Z.to_nat (Z.log2 n)) in *.
    destruct (digits_of_head f n "") as (k & r & Hk & Heq & Hr).
    assert (Hp : JsNumber.parseInt (String (JsDate.digit_char k) r)
                 = JsNumber.read_unsigned (String (JsDate.digit_char k) r))
      by digit_cases k.
    rewrite Heq, Hp, (read_unsigned_digits k r "" Hk Hr eq_refl), <- Heq.
    now rewrite digits_of_read by lia.
Qed.

Example Number_toString_ex :
  Number_toString 0 = "0" /\ Number_toString 42 = "42"
  /\ Number_toString (-7) = "-7" /\ Number_toString 1704186000000 = "1704186000000".
Proof. repeat split. Qed.

(** ** Round trips through the store *)

Lemma new_id_above (l : list entry) :
  forall x, In x l ->
    id x < match l with
           | e :: es => JsNumber.Math_max (id e) (map id es) + 1
           | [] => 1
           end.
Proof.
  destruct l as [|a l]; [intros x []|]. intros x Hx.
  destruct (Math_max_is_max (id a) (map id l)) as [_ Hall].
  rewrite Forall_forall in Hall.
  assert (Hin : In (id x) (id a :: map id l)).
  { change (id a :: map id l) with (map id (a :: l)). now apply in_map. }
  rewrite <- list_elem_of_In in Hin.
  specialize (Hall (id x) Hin). simpl in Hall. lia.
Qed.

Lemma find_app_none {A} (p : A -> bool) (l : list A) (x : A) :
  (forall y, In y l -> p y = false) -> p x = true ->
  List.find p (l ++ [x]) = Some x.
Proof.
  intros Hl Hx. induction l as [|a l IH]; simpl; [now rewrite Hx|].
  rewrite (Hl a (or_introl eq_refl)). apply IH. intros y Hy. apply Hl. now right.
Qed.

Lemma filter_app_none {A} (p : A -> bool) (l : list A) (x : A) :
  (forall y, In y l -> p y = true) -> p x = false ->
  List.filter p (l ++ [x]) = l.
Proof.
  intros Hl Hx. rewrite List.filter_app. simpl. rewrite Hx, app_nil_r.
  now apply filter_all_true.
Qed.

(** X1. The record that an insert stores is the one that [getEntryById]
    returns for the text of the returned id, as the list shows it in
    [data-id]. *)
Theorem insert_then_getEntryById (f : fields) (w : world) :
  exists n w1 w2,
    addEntryToLocalStorage f w = (Ok n, w1)
    /\ getEntryById (Number_toString n) w1 = (Ok (Some (mkEntry n f)), w2).
Proof.
  rewrite addEntryToLocalStorage_run. eexists _, _, _. split; [reflexivity|].
  rewrite getEntryById_run, stored_set_localStorage, parseInt_Number_toString.
  rewrite find_app_none; [reflexivity | |].
  - intros y Hy. pose proof (new_id_above (stored w) y Hy) as Hlt.
    simpl. apply Z.eqb_neq. lia.
  - simpl. apply Z.eqb_refl.
Qed.

Lemma find_insert_first {A} (p : A -> bool) (l : list A) (k : nat) (e : A) :
  JsArray.findIndex p l = Some k -> p e = true ->
  List.find p (<[k := e]> l) = Some e.
Proof.
  revert k. induction l as [|a l IH]; intros k; simpl; [discriminate|].
  destruct (p a) eqn:Hpa.
  - intros [= <-] He. simpl. now rewrite He.
  - destruct (JsArray.findIndex p l) as [j|]; simpl; [|discriminate].
    intros [= <-] He. simpl. rewrite Hpa. now apply IH.
Qed.

(** X2. After an update of a record whose id is in the store,
    [getEntryById] for the text of that id returns the record that was
    given, whole. *)
Theorem update_then_getEntryById (e : entry) (w : world) :
  (exists x, In x (stored w) /\ id x = id e) ->
  exists w1 w2,
    updateEntryInLocalStorage e w = (Ok tt, w1)
    /\ getEntryById (Number_toString (id e)) w1 = (Ok (Some e), w2).
Proof.
  intros (x & Hx & Hid). rewrite updateEntryInLocalStorage_run.
  destruct (JsArray.findIndex (fun y => id y =? id e) (stored w)) as [k|] eqn:Hk.
  - eexists _, _. split; [reflexivity|].
    rewrite getEntryById_run, stored_set_localStorage, parseInt_Number_toString.
    simpl. rewrite (find_insert_first _ _ _ e Hk); [reflexivity|].
    apply Z.eqb_refl.
  - rewrite findIndex_None in Hk. specialize (Hk x Hx).
    apply Z.eqb_neq in Hk. contradiction.
Qed.

Lemma update_then_getEntryById_witness :
  (exists x, In x (stored sampleWorld) /\ id x = id (mkEntry 2 sampleReport))
  /\ exists w1 w2,
       updateEntryInLocalStorage (mkEntry 2 sampleReport) sampleWorld = (Ok tt, w1)
       /\ getEntryById (Number_toString (id (mkEntry 2 sampleReport))) w1
          = (Ok (Some (mkEntry 2 sampleReport)), w2).
Proof.
  assert (H : exists x, In x (stored sampleWorld)
                        /\ id x = id (mkEntry 2 sampleReport)).
  { exists samplePhoto. split; [right; left; reflexivity | reflexivity]. }
  split; [exact H|].
  exact (update_then_getEntryById (mkEntry 2 sampleReport) sampleWorld H).
Defined.

(** X3. An update changes neither the number of stored records nor the
    sequence of their ids, whatever record it is given. *)
Theorem update_keeps_ids (e : entry) (w : world) :
  map id (stored (snd (updateEntryInLocalStorage e w))) = map id (stored w)
  /\ length (stored (snd (updateEntryInLocalStorage e w))) = length (stored w).
Proof.
  rewrite updateEntryInLocalStorage_run.
  destruct (JsArray.findIndex (fun y => id y =? id e) (stored w)) as [k|] eqn:Hk;
    simpl; [|split; reflexivity].
  rewrite stored_set_localStorage.
  destruct (findIndex_Some _ _ _ Hk) as (x & Hx & Hpx & _).
  apply Z.eqb_eq in Hpx. split.
  - exact (map_id_insert_same _ _ x e Hx Hpx).
  - apply length_insert.
Qed.

Lemma filter_other_ids (l1 l2 : list entry) (x : entry) :
  NoDup (map id (l1 ++ x :: l2)) ->
  List.filter (fun e => negb (JsNumber.strict_eq (id e) (Some (id x))))
              (l1 ++ x :: l2)
  = l1 ++ l2.
Proof.
  intros Hnd. rewrite map_app in Hnd. simpl in Hnd.
  apply NoDup_app in Hnd. destruct Hnd as (_ & Hdisj & Hnd2).
  apply NoDup_cons in Hnd2. destruct Hnd2 as [Hx2 _].
  rewrite List.filter_app. simpl. rewrite Z.eqb_refl. simpl. f_equal.
  - apply filter_all_true. intros y Hy. apply negb_true_iff, Z.eqb_neq.
    intros Heq. apply (Hdisj (id y)).
    + apply list_elem_of_In. now apply in_map.
    + rewrite Heq. left.
  - apply filter_all_true. intros y Hy. apply negb_true_iff, Z.eqb_neq.
    intros Heq. apply Hx2. rewrite <- Heq.
    apply list_elem_of_In. now apply in_map.
Qed.

(** X4. When the ids of the store are pairwise distinct, a confirmed
    [deleteEntry] for the text of a stored record's id removes that record
    and no other, keeps the order of the rest, and shows the success
    message. *)
Theorem deleteEntry_removes_listed (w : world) (x : entry) (l1 l2 : list entry) :
  stored w = l1 ++ x :: l2 ->
  NoDup (map id (stored w)) ->
  exists w',
    deleteEntry true (Number_toString (id x)) w = (Ok tt, w')
    /\ stored w' = l1 ++ l2
    /\ toasts w'
       = toasts w ++ [mkToast "Success" "Entry deleted successfully" "success"].
Proof.
  intros Hstored Hnd.
  unfold deleteEntry, try_catch, bind, removeEntry, showToast. cbn [negb].
  rewrite removeEntryFromLocalStorage_run, parseInt_Number_toString.
  eexists. split; [reflexivity|]. split; [|reflexivity].
  simpl. rewrite Hstored in *. now apply filter_other_ids.
Qed.

Lemma deleteEntry_removes_listed_witness :
  stored sampleWorld = [sampleReport] ++ samplePhoto :: []
  /\ NoDup (map id (stored sampleWorld))
  /\ exists w',
       deleteEntry true (Number_toString (id samplePhoto)) sampleWorld = (Ok tt, w')
       /\ stored w' = [sampleReport] ++ []
       /\ toasts w'
          = toasts sampleWorld
            ++ [mkToast "Success" "Entry deleted successfully" "success"].
Proof.
  assert (Hnd : NoDup (map id (stored sampleWorld))).
  { apply NoDup_cons. split; [|apply NoDup_singleton].
    intros H. apply list_elem_of_In in H. destruct H as [H | []]. discriminate H. }
  split; [reflexivity|]. split; [exact Hnd|].
  exact (deleteEntry_removes_listed sampleWorld samplePhoto [sampleReport] []
           eq_refl Hnd).
Defined.

(** X5. A confirmed [deleteEntry] for an id that no stored record has
    keeps every record and still shows the success message. *)
Theorem deleteEntry_absent_reports_success (id_arg : string) (w : world) :
  (forall e, In e (stored w) ->
             JsNumber.strict_eq (id e) (JsNumber.parseInt id_arg) = false) ->
  exists w',
    deleteEntry true id_arg w = (Ok tt, w')
    /\ stored w' = stored w
    /\ toasts w'
       = toasts w ++ [mkToast "Success" "Entry deleted successfully" "success"].
Proof.
  intros Habsent.
  unfold deleteEntry, try_catch, bind, removeEntry, showToast. cbn [negb].
  rewrite removeEntryFromLocalStorage_run.
  eexists. split; [reflexivity|]. split; [|reflexivity].
  simpl. apply filter_all_true. intros e He. now rewrite (Habsent e He).
Qed.

Lemma deleteEntry_absent_reports_success_witness :
  (forall e, In e (stored sampleWorld) ->
             JsNumber.strict_eq (id e) (JsNumber.parseInt "7") = false)
  /\ exists w',
       deleteEntry true "7" sampleWorld = (Ok tt, w')
       /\ stored w' = stored sampleWorld
       /\ toasts w'
          = toasts sampleWorld
            ++ [mkToast "Success" "Entry deleted successfully" "success"].
Proof.
  assert (H : forall e, In e (stored sampleWorld) ->
                        JsNumber.strict_eq (id e) (JsNumber.parseInt "7") = false).
  { intros e [<- | [<- | []]]; reflexivity. }
  split; [exact H|].
  exact (deleteEntry_absent_reports_success "7" sampleWorld H).
Defined.

(** X6. The id of a record that was inserted and deleted again is given to
    the next record inserted: after the insert of a record, the delete of
    its id puts the stored records back, and a second insert returns the
    same id. *)
Theorem deleted_id_is_assigned_again (f1 f2 : fields) (w : world) :
  exists n w1 w2 w3,
    addEntryToLocalStorage f1 w = (Ok n, w1)
    /\ removeEntryFromLocalStorage (Number_toString n) w1 = (Ok tt, w2)
    /\ stored w2 = stored w
    /\ addEntryToLocalStorage f2 w2 = (Ok n, w3)
    /\ stored w3 = stored w ++ [mkEntry n f2].
Proof.
  rewrite addEntryToLocalStorage_run. eexists _, _, _, _.
  split; [reflexivity|].
  rewrite removeEntryFromLocalStorage_run, parseInt_Number_toString.
  split; [reflexivity|].
  rewrite !stored_set_localStorage.
  assert (Hback :
    List.filter
      (fun e => negb (JsNumber.strict_eq (id e)
                        (Some (match stored w with
                               | e0 :: es => JsNumber.Math_max (id e0) (map id es) + 1
                               | [] => 1
                               end))))
      (stored w ++ [mkEntry (match stored w with
                             | e0 :: es => JsNumber.Math_max (id e0) (map id es) + 1
                             | [] => 1
                             end) f1])
    = stored w).
  { apply filter_app_none.
    - intros y Hy. pose proof (new_id_above (stored w) y Hy) as Hlt.
      simpl. apply negb_true_iff, Z.eqb_neq. lia.
    - simpl. now rewrite Z.eqb_refl. }
  split; [exact Hback|].
  rewrite addEntryToLocalStorage_run, !stored_set_localStorage, Hback.
  split; reflexivity.
Qed.

(** ** Saves *)

Lemma handleUpload_save_run (now : Z) (w : world) (file : File.t)
    (rest : list File.t) (data : string) :
  files (form w) = file :: rest ->
  form_accepted w file = true ->
  File.content file = Some data ->
  handleUpload now w
  = if string_truthy (currentEntryId w) then
      match updateEntry_numbered (JsNumber.parseInt_of (currentEntryId w))
              (uploadFields w file data now) w with
      | (Ok _, w') => (Ok tt, saved "Entry updated successfully" w')
      | (Throw _, w') =>
          (Ok tt, add_toast (mkToast "Error" "Failed to process file" "danger") w')
      end
    else
      match addEntry (uploadFields w file data now) w with
      | (Ok _, w') => (Ok tt, saved "File uploaded successfully" w')
      | (Throw _, w') =>
          (Ok tt, add_toast (mkToast "Error" "Failed to process file" "danger") w')
      end.
Proof.
  intros Hfiles Hform Hdata. unfold form_accepted in Hform.
  apply andb_true_iff in Hform. destruct Hform as [Hform Hsize].
  apply andb_true_iff in Hform. destruct Hform as [Htitle Htype].
  apply negb_true_iff in Hsize.
  unfold handleUpload, bind, get_world. rewrite Hfiles, Htitle, Htype, Hsize.
  cbn [negb]. unfold try_catch, bind, readFileAsDataURL, ret. rewrite Hdata.
  fold (parseTags (tagsInput (form w))). fold (uploadFields w file data now).
  destruct (string_truthy (currentEntryId w)).
  - destruct (updateEntry_numbered _ _ w) as [[u|ex] w']; reflexivity.
  - destruct (addEntry _ w) as [[n|ex] w']; reflexivity.
Qed.

(** ** Tags as text *)

Lemma trimStart_head (s : string) :
  JsString.trimStart s = ""
  \/ exists c r, JsString.trimStart s = String c r /\ JsString.is_space c = false.
Proof.
  induction s as [|c s IH]; [now left|]. cbn [JsString.trimStart].
  destruct (JsString.is_space c) eqn:Hc; [exact IH|]. right. eauto.
Qed.

Lemma trimEnd_head (c : ascii) (r : string) :
  JsString.is_space c = false ->
  exists r', JsString.trimEnd (String c r) = String c r'.
Proof.
  intros Hc. cbn [JsString.trimEnd]. rewrite Hc.
  destruct (JsString.trimEnd r); eauto.
Qed.

Lemma trimEnd_idem (s : string) :
  JsString.trimEnd (JsString.trimEnd s) = JsString.trimEnd s.
Proof.
  induction s as [|c s IH]; [reflexivity|]. cbn [JsString.trimEnd].
  destruct (JsString.trimEnd s) as [|c' r'] eqn:Hs.
  - destruct (JsString.is_space c) eqn:Hc; [reflexivity|].
    cbn [JsString.trimEnd]. now rewrite Hc.
  - change (JsString.trimEnd (String c (String c' r')))
      with (match JsString.trimEnd (String c' r') with
            | "" => if JsString.is_space c then "" else String c ""
            | r0 => String c r0
            end).
    now rewrite IH.
Qed.

Lemma trim_idem (s : string) :
  JsString.trim (JsString.trim s) = JsString.trim s.
Proof.
  unfold JsString.trim.
  destruct (trimStart_head s) as [-> | (c & r & -> & Hc)]; [reflexivity|].
  destruct (trimEnd_head c r Hc) as (r' & Hr').
  rewrite Hr'. cbn [JsString.trimStart]. rewrite Hc, <- Hr'.
  apply trimEnd_idem.
Qed.

Lemma has_char_app (c : ascii) (a b : string) :
  has_char c (a ++ b) = has_char c a || has_char c b.
Proof.
  induction a as [|x a IH]; simpl; [reflexivity|].
  now rewrite IH, orb_assoc.
Qed.

Lemma split_no_sep (sep : ascii) (s : string) :
  has_char sep s = false -> JsString.split sep s = [s].
Proof.
  induction s as [|c s IH]; [reflexivity|]. simpl.
  intros H. apply orb_false_iff in H. destruct H as [Hc Hs].
  now rewrite Hc, (IH Hs).
Qed.

Lemma split_app_sep (sep : ascii) (a b : string) :
  has_char sep a = false ->
  JsString.split sep (a ++ String sep b) = a :: JsString.split sep b.
Proof.
  induction a as [|c a IH]; simpl.
  - intros _. now rewrite Ascii.eqb_refl.
  - intros H. apply orb_false_iff in H. destruct H as [Hc Ha].
    now rewrite Hc, (IH Ha).
Qed.

Lemma clean_tag_spec (t : string) :
  clean_tag t = true ->
  JsString.truthy t = true /\ JsString.trim t = t /\ has_char "," t = false.
Proof.
  unfold clean_tag. intros H.
  apply andb_true_iff in H. destruct H as [H Hcomma].
  apply andb_true_iff in H. destruct H as [Htruthy Htrim].
  apply String.eqb_eq in Htrim. apply negb_true_iff in Hcomma. auto.
Qed.

Lemma split_concat (pfx t : string) (r : list string) :
  has_char "," pfx = false ->
  forallb clean_tag (t :: r) = true ->
  JsString.split "," (pfx ++ String.concat ", " (t :: r))
  = (pfx ++ t)%string :: map (String " ") r.
Proof.
  revert pfx t. induction r as [|t2 r IH]; intros pfx t Hpfx Hclean.
  - simpl in Hclean. rewrite andb_true_r in Hclean.
    destruct (clean_tag_spec t Hclean) as (_ & _ & Hc).
    simpl. apply split_no_sep. now rewrite has_char_app, Hpfx, Hc.
  - cbn [forallb] in Hclean. apply andb_true_iff in Hclean.
    destruct Hclean as [Ht Hrest].
    destruct (clean_tag_spec t Ht) as (_ & _ & Hc).
    change (String.concat ", " (t :: t2 :: r))
      with (t ++ String "," (String " " (String.concat ", " (t2 :: r))))%string.
    rewrite <- append_assoc.
    rewrite split_app_sep by now rewrite has_char_app, Hpfx, Hc.
    change (String " " (String.concat ", " (t2 :: r)))
      with (" " ++ String.concat ", " (t2 :: r))%string.
    rewrite (IH " " t2 eq_refl Hrest). reflexivity.
Qed.

Lemma trim_map_clean (r : list string) :
  forallb clean_tag r = true ->
  map JsString.trim (map (String " ") r) = r.
Proof.
  induction r as [|t r IH]; [reflexivity|]. cbn [forallb map].
  intros H. apply andb_true_iff in H. destruct H as [Ht Hr].
  destruct (clean_tag_spec t Ht) as (_ & Htrim & _).
  rewrite (IH Hr). f_equal.
  change (JsString.trim (String " " t)) with (JsString.trim t). exact Htrim.
Qed.

Lemma parseTags_concat (l : list string) :
  forallb clean_tag l = true -> parseTags (String.concat ", " l) = l.
Proof.
  intros Hclean. destruct l as [|t r]; [reflexivity|].
  pose proof Hclean as Hall. cbn [forallb] in Hall.
  apply andb_true_iff in Hall. destruct Hall as [Ht Hr].
  destruct (clean_tag_spec t Ht) as (Htruthy & Htrim & _).
  unfold parseTags.
  assert (Hne : JsString.truthy (String.concat ", " (t :: r)) = true).
  { destruct t as [|c t]; [discriminate Htruthy|]. now destruct r. }
  rewrite Hne.
  pose proof (split_concat "" t r eq_refl Hclean) as Hsplit.
  cbn [append] in Hsplit. rewrite Hsplit.
  cbn [map]. rewrite Htrim, (trim_map_clean r Hr).
  apply filter_all_true. intros x Hx.
  rewrite forallb_forall in Hclean.
  exact (proj1 (clean_tag_spec x (Hclean x Hx))).
Qed.

Lemma parseTags_tidy (input : string) : Forall tidy_tag (parseTags input).
Proof.
  unfold parseTags. destruct (JsString.truthy input); [|constructor].
  rewrite Forall_forall. intros t Ht.
  apply list_elem_of_In, filter_In in Ht. destruct Ht as [Hin Htruthy].
  apply in_map_iff in Hin. destruct Hin as (p & <- & _). split.
  - now apply truthy_spec.
  - apply trim_idem.
Qed.

Example parseTags_ex :
  parseTags " Work , URGENT,, " = ["Work"; "URGENT"]
  /\ parseTags "" = []
  /\ parseTags (String.concat ", " ["Work"; "URGENT"]) = ["Work"; "URGENT"].
Proof. repeat split. Qed.

Lemma quota_unlimited (now : Z) :
  Quota.handleUpload unlimited now = handleUpload now.
Proof. reflexivity. Qed.

Lemma quota_addEntryToLocalStorage_run (fits : list entry -> bool) (f : fields)
    (w : world) :
  Quota.addEntryToLocalStorage fits f w
  = if fits (stored w ++ [mkEntry (next_id (stored w)) f])
    then (Ok (next_id (stored w)),
          set_localStorage
            (Some (stored w ++ [mkEntry (next_id (stored w)) f]))
            (log_call (SetItem (stored w ++ [mkEntry (next_id (stored w)) f]))
                      (log_call GetItem w)))
    else (Throw QuotaExceededError,
          log_call (SetItem (stored w ++ [mkEntry (next_id (stored w)) f]))
                   (log_call GetItem w)).
Proof.
  unfold Quota.addEntryToLocalStorage, Quota.setItem, getEntriesFromLocalStorage,
    getItem, bind, ret, stored, next_id. simpl.
  destruct (localStorage w) as [l|]; simpl.
  - destruct (fits _); reflexivity.
  - destruct (fits _); reflexivity.
Qed.

Lemma quota_handleUpload_new_run (fits : list entry -> bool) (now : Z)
    (w : world) (file : File.t) (rest : list File.t) (data : string) :
  files (form w) = file :: rest ->
  form_accepted w file = true ->
  File.content file = Some data ->
  string_truthy (currentEntryId w) = false ->
  Quota.handleUpload fits now w
  = match Quota.addEntryToLocalStorage fits (uploadFields w file data now) w with
    | (Ok _, w') => (Ok tt, saved "File uploaded successfully" w')
    | (Throw _, w') =>
        (Ok tt, add_toast (mkToast "Error" "Failed to process file" "danger") w')
    end.
Proof.
  intros Hfiles Hform Hdata Hcur. unfold form_accepted in Hform.
  apply andb_true_iff in Hform. destruct Hform as [Hform Hsize].
  apply andb_true_iff in Hform. destruct Hform as [Htitle Htype].
  apply negb_true_iff in Hsize.
  unfold Quota.handleUpload, bind, get_world.
  rewrite Hfiles, Htitle, Htype, Hsize.
  cbn [negb]. unfold try_catch, bind, readFileAsDataURL, ret. rewrite Hdata, Hcur.
  fold (parseTags (tagsInput (form w))). fold (uploadFields w file data now).
  unfold Quota.addEntry.
  destruct (Quota.addEntryToLocalStorage fits _ w) as [[n|ex] w']; reflexivity.
Qed.

(** X7. A save of a new record (no edit in progress) that passes the
    checks and reads its file asks the storage to write the stored records
    followed by one new record, whose id is above every stored id: it holds
    the trimmed title and description, the tags of the form split at the
    commas, trimmed and without the empty ones, the name and the content of
    the file, and a date that [new Date] reads back as the time of the
    save.  When the host accepts the write, the record is stored, the form
    is reset and the success message shown; when the host refuses it (the
    quota is exceeded), nothing is stored, the failure message is shown and
    the form and the edit state stay as they were. *)
Theorem handleUpload_new_record_stored_or_refused (fits : list entry -> bool)
    (now : Z) (w : world) (file : File.t) (rest : list File.t) (data : string) :
  files (form w) = file :: rest ->
  form_accepted w file = true ->
  File.content file = Some data ->
  string_truthy (currentEntryId w) = false ->
  Z.abs now <= JsDate.maxTime ->
  exists w',
    Quota.handleUpload fits now w = (Ok tt, w')
    /\ storageLog w'
       = storageLog w
         ++ [GetItem;
             SetItem (stored w ++ [mkEntry (next_id (stored w))
                                     (uploadFields w file data now)])]
    /\ (forall x, In x (stored w) -> id x < next_id (stored w))
    /\ JsDate.parse (date (uploadFields w file data now)) = Some now
    /\ (exists l, tags (uploadFields w file data now) = Some l
                  /\ Forall tidy_tag l)
    /\ In (type (uploadFields w file data now)) ["image"; "video"; "document"]
    /\ (fits (stored w ++ [mkEntry (next_id (stored w))
                             (uploadFields w file data now)]) = true ->
        stored w' = stored w ++ [mkEntry (next_id (stored w))
                                   (uploadFields w file data now)]
        /\ form w' = emptyForm
        /\ currentEntryId w' = None
        /\ toasts w'
           = toasts w
             ++ [mkToast "Success" "File uploaded successfully" "success"])
    /\ (fits (stored w ++ [mkEntry (next_id (stored w))
                             (uploadFields w file data now)]) = false ->
        localStorage w' = localStorage w
        /\ form w' = form w
        /\ currentEntryId w' = currentEntryId w
        /\ toasts w'
           = toasts w ++ [mkToast "Error" "Failed to process file" "danger"]).
Proof.
  intros Hfiles Hform Hdata Hcur Hnow.
  rewrite (quota_handleUpload_new_run fits now w file rest data
             Hfiles Hform Hdata Hcur).
  rewrite quota_addEntryToLocalStorage_run.
  assert (Htype : In (type (uploadFields w file data now))
                     ["image"; "video"; "document"]).
  { cbn [type uploadFields].
    destruct (JsString.startsWith (File.type file) "image/"); [now left|].
    destruct (JsString.startsWith (File.type file) "video/");
      [right; now left | right; right; now left]. }
  destruct (fits _) eqn:Hfits.
  - eexists. split; [reflexivity|].
    split; [cbn; now rewrite <- app_assoc|].
    split; [apply new_id_above|].
    split; [apply parse_toISOString; exact Hnow|].
    split; [eexists; split; [reflexivity | apply parseTags_tidy]|].
    split; [exact Htype|]. split; [intros _; repeat split | discriminate].
  - eexists. split; [reflexivity|].
    split; [cbn; now rewrite <- app_assoc|].
    split; [apply new_id_above|].
    split; [apply parse_toISOString; exact Hnow|].
    split; [eexists; split; [reflexivity | apply parseTags_tidy]|].
    split; [exact Htype|]. split; [discriminate | intros _; repeat split].
Qed.

Lemma handleUpload_new_record_stored_or_refused_witness :
  files (form (uploading smallPdf sampleWorld)) = smallPdf :: []
  /\ form_accepted (uploading smallPdf sampleWorld) smallPdf = true
  /\ File.content smallPdf = Some "data:application/pdf;base64,JVBERi0y"
  /\ string_truthy (currentEntryId (uploading smallPdf sampleWorld)) = false
  /\ Z.abs 1717236000000 <= JsDate.maxTime
  /\ room_for_two
       (stored (uploading smallPdf sampleWorld)
        ++ [mkEntry (next_id (stored (uploading smallPdf sampleWorld)))
              (uploadFields (uploading smallPdf sampleWorld) smallPdf
                 "data:application/pdf;base64,JVBERi0y" 1717236000000)])
     = false
  /\ exists w',
       Quota.handleUpload room_for_two 1717236000000
         (uploading smallPdf sampleWorld) = (Ok tt, w')
       /\ localStorage w' = localStorage (uploading smallPdf sampleWorld)
       /\ toasts w'
          = toasts (uploading smallPdf sampleWorld)
            ++ [mkToast "Error" "Failed to process file" "danger"].
Proof.
  assert (Hnow : Z.abs 1717236000000 <= JsDate.maxTime)
    by (unfold JsDate.maxTime; lia).
  repeat (split; [reflexivity|]). split; [exact Hnow|].
  split; [reflexivity|].
  destruct (handleUpload_new_record_stored_or_refused room_for_two 1717236000000
              (uploading smallPdf sampleWorld) smallPdf []
              "data:application/pdf;base64,JVBERi0y"
              eq_refl eq_refl eq_refl eq_refl Hnow)
    as (w' & Hrun & _ & _ & _ & _ & _ & _ & Hrefused).
  exists w'. split; [exact Hrun|].
  destruct (Hrefused eq_refl) as (Hls & _ & _ & Htoasts). split; assumption.
Defined.

Example handleUpload_quota_ex :
  stored (snd (Quota.handleUpload unlimited 1717236000000
                 (uploading smallPdf sampleWorld)))
  = [sampleReport; samplePhoto;
     mkEntry 3 (mkFields "Report" (Some "") (Some []) "report-v2.pdf"
                  (Some "pdf") "document"
                  "data:application/pdf;base64,JVBERi0y"
                  "2024-06-01T10:00:00.000Z")]
  /\ stored (snd (Quota.handleUpload room_for_two 1717236000000
                    (uploading smallPdf sampleWorld)))
     = [sampleReport; samplePhoto].
Proof. split; reflexivity. Qed.

(** X8. When the file passes the checks and the reader fails, the save
    returns without throwing, shows the failure message and changes nothing
    else: nothing is read from or written to the storage, the form keeps its
    content and the edit in progress stays. *)
Theorem handleUpload_unreadable_file (now : Z) (w : world) (file : File.t)
    (rest : list File.t) :
  files (form w) = file :: rest ->
  form_accepted w file = true ->
  File.content file = None ->
  handleUpload now w
  = (Ok tt, add_toast (mkToast "Error" "Failed to process file" "danger") w).
Proof.
  intros Hfiles Hform Hdata. unfold form_accepted in Hform.
  apply andb_true_iff in Hform. destruct Hform as [Hform Hsize].
  apply andb_true_iff in Hform. destruct Hform as [Htitle Htype].
  apply negb_true_iff in Hsize.
  unfold handleUpload, bind, get_world. rewrite Hfiles, Htitle, Htype, Hsize.
  cbn [negb]. unfold try_catch, bind, readFileAsDataURL. rewrite Hdata.
  reflexivity.
Qed.

Lemma handleUpload_unreadable_file_witness :
  files (form (uploading (File.mk "report.pdf" "application/pdf" 2048 None)
                 sampleWorld))
  = File.mk "report.pdf" "application/pdf" 2048 None :: []
  /\ form_accepted (uploading (File.mk "report.pdf" "application/pdf" 2048 None)
                      sampleWorld)
       (File.mk "report.pdf" "application/pdf" 2048 None) = true
  /\ File.content (File.mk "report.pdf" "application/pdf" 2048 None) = None
  /\ handleUpload 0 (uploading (File.mk "report.pdf" "application/pdf" 2048 None)
                       sampleWorld)
     = (Ok tt, add_toast (mkToast "Error" "Failed to process file" "danger")
                 (uploading (File.mk "report.pdf" "application/pdf" 2048 None)
                    sampleWorld)).
Proof.
  repeat (split; [reflexivity|]).
  exact (handleUpload_unreadable_file 0
           (uploading (File.mk "report.pdf" "application/pdf" 2048 None)
              sampleWorld)
           (File.mk "report.pdf" "application/pdf" 2048 None) []
           eq_refl eq_refl eq_refl).
Defined.

(** X9. Without a file the save asks for one, and with a file but a title
    of white space only it asks for a title, whatever the file is; in both
    cases it returns without throwing and changes nothing but the messages
    shown. *)
Theorem handleUpload_needs_file_and_title (now : Z) (w : world) :
  (files (form w) = [] ->
   handleUpload now w
   = (Ok tt, add_toast (mkToast "Error" "Please select a file" "danger") w))
  /\ (files (form w) <> [] -> JsString.trim (titleInput (form w)) = "" ->
      handleUpload now w
      = (Ok tt, add_toast (mkToast "Error" "Please enter a title" "danger") w)).
Proof.
  unfold handleUpload, bind, get_world. split.
  - intros ->. reflexivity.
  - intros Hfiles Htitle. destruct (files (form w)) as [|file rest];
      [contradiction|].
    rewrite Htitle. reflexivity.
Qed.

(** X10. When the record that is being edited is no longer stored, the save
    stores nothing (the item in localStorage is left as it was and nothing
    is written) and yet shows that the entry was updated and resets the
    form. *)
Theorem handleUpload_edit_of_missing_record (now : Z) (w : world)
    (file : File.t) (rest : list File.t) (data i : string) (n : Z) :
  files (form w) = file :: rest ->
  form_accepted w file = true ->
  File.content file = Some data ->
  currentEntryId w = Some i ->
  JsNumber.parseInt i = Some n ->
  (forall x, In x (stored w) -> id x <> n) ->
  exists w',
    handleUpload now w = (Ok tt, w')
    /\ localStorage w' = localStorage w
    /\ storageLog w' = storageLog w ++ [GetItem]
    /\ form w' = emptyForm
    /\ currentEntryId w' = None
    /\ toasts w'
       = toasts w ++ [mkToast "Success" "Entry updated successfully" "success"].
Proof.
  intros Hfiles Hform Hdata Hcur Hparse Habsent.
  assert (Hi : JsString.truthy i = true).
  { destruct i; [discriminate Hparse | reflexivity]. }
  rewrite (handleUpload_save_run now w file rest data Hfiles Hform Hdata), Hcur.
  cbn [string_truthy JsNumber.parseInt_of]. rewrite Hi, Hparse.
  unfold updateEntry_numbered, updateEntry.
  rewrite updateEntryInLocalStorage_run.
  assert (Hnone : JsArray.findIndex
                    (fun x => id x =? id (mkEntry n (uploadFields w file data now)))
                    (stored w) = None).
  { apply findIndex_None. intros x Hx. apply Z.eqb_neq. exact (Habsent x Hx). }
  rewrite Hnone. eexists. repeat split.
Qed.

Lemma handleUpload_edit_of_missing_record_witness :
  files (form (set_localStorage (Some [samplePhoto]) editingReport))
  = smallPdf :: []
  /\ form_accepted (set_localStorage (Some [samplePhoto]) editingReport) smallPdf
     = true
  /\ File.content smallPdf = Some "data:application/pdf;base64,JVBERi0y"
  /\ currentEntryId (set_localStorage (Some [samplePhoto]) editingReport)
     = Some "1"
  /\ JsNumber.parseInt "1" = Some 1
  /\ (forall x,
        In x (stored (set_localStorage (Some [samplePhoto]) editingReport)) ->
        id x <> 1)
  /\ exists w',
       handleUpload 1717236000000
         (set_localStorage (Some [samplePhoto]) editingReport) = (Ok tt, w')
       /\ localStorage w'
          = localStorage (set_localStorage (Some [samplePhoto]) editingReport)
       /\ storageLog w'
          = storageLog (set_localStorage (Some [samplePhoto]) editingReport)
            ++ [GetItem]
       /\ form w' = emptyForm
       /\ currentEntryId w' = None
       /\ toasts w'
          = toasts (set_localStorage (Some [samplePhoto]) editingReport)
            ++ [mkToast "Success" "Entry updated successfully" "success"].
Proof.
  assert (Habsent : forall x,
            In x (stored (set_localStorage (Some [samplePhoto]) editingReport)) ->
            id x <> 1).
  { intros x [<- | []]. discriminate. }
  repeat (split; [reflexivity|]). split; [exact Habsent|].
  exact (handleUpload_edit_of_missing_record 1717236000000
           (set_localStorage (Some [samplePhoto]) editingReport) smallPdf []
           "data:application/pdf;base64,JVBERi0y" "1" 1
           eq_refl eq_refl eq_refl eq_refl eq_refl Habsent).
Defined.

(** ** Edits *)

Lemma editEntry_run (id_arg : string) (w : world) :
  editEntry id_arg w
  = match List.find
            (fun e => JsNumber.strict_eq (id e) (JsNumber.parseInt id_arg))
            (stored w) with
    | None =>
        (Ok tt, add_toast (mkToast "Error" "Entry not found" "danger")
                  (log_call GetItem w))
    | Some e =>
        (Ok tt,
         set_form
           (mkForm [] (title e)
              (if string_truthy (description e)
               then match description e with Some d => d | None => "" end
               else "")
              (match tags e with
               | Some l => String.concat ", " l
               | None => ""
               end))
           (set_currentEntryId (Some id_arg) (log_call GetItem w)))
    end.
Proof.
  unfold editEntry, try_catch, bind. rewrite getEntryById_run.
  destruct (List.find _ (stored w)); reflexivity.
Qed.

Lemma find_first {A} (p : A -> bool) (l : list A) (j : nat) (x : A) :
  l !! j = Some x -> p x = true ->
  (forall k y, (k < j)%nat -> l !! k = Some y -> p y = false) ->
  List.find p l = Some x.
Proof.
  revert j. induction l as [|a l IH]; intros j Hj Hx Hbefore;
    [destruct j; discriminate|].
  destruct j as [|j]; simpl in *.
  - injection Hj as ->. now rewrite Hx.
  - rewrite (Hbefore O a ltac:(lia) eq_refl).
    apply (IH j Hj Hx). intros k y Hk Hy. apply (Hbefore (S k) y); [lia | exact Hy].
Qed.

Lemma Number_toString_truthy (n : Z) :
  JsString.truthy (Number_toString n) = true.
Proof.
  unfold Number_toString. destruct (n <? 0); [reflexivity|].
  destruct (digits_of_head (Z.to_nat (Z.log2 n)) n "") as (k & r & _ & -> & _).
  reflexivity.
Qed.

(** X11. A record that is opened for editing from the list and saved with a
    new file, the title and the tags of the form left as [editEntry] filled
    them, keeps its place, its id, its title (trimmed) and its tags,
    provided the tags are as a save stores them: not empty, trimmed and
    without comma. *)
Theorem edit_then_save_keeps_title_and_tags (now : Z) (w : world) (x : entry)
    (j : nat) (l : list string) (file : File.t) (data : string) :
  stored w !! j = Some x ->
  (forall k y, (k < j)%nat -> stored w !! k = Some y -> id y <> id x) ->
  tags x = Some l ->
  forallb clean_tag l = true ->
  JsString.truthy (JsString.trim (title x)) = true ->
  property_truthy (ALLOWED_TYPES_get (File.type file)) = true ->
  File.size file <= MAX_FILE_SIZE ->
  File.content file = Some data ->
  exists w' e',
    handleUpload now
      (chooseFile file (snd (editEntry (Number_toString (id x)) w)))
    = (Ok tt, w')
    /\ stored w' !! j = Some e'
    /\ id e' = id x
    /\ title e' = JsString.trim (title x)
    /\ tags e' = Some l
    /\ length (stored w') = length (stored w)
    /\ forall k, k <> j -> stored w' !! k = stored w !! k.
Proof.
  intros Hj Hfirst Htags Hclean Htitle Htype Hsize Hdata.
  assert (Hfind : List.find
                    (fun e => JsNumber.strict_eq (id e)
                                (JsNumber.parseInt (Number_toString (id x))))
                    (stored w) = Some x).
  { rewrite parseInt_Number_toString. apply (find_first _ _ j x Hj).
    - simpl. apply Z.eqb_refl.
    - intros k y Hk Hy. simpl. apply Z.eqb_neq. exact (Hfirst k y Hk Hy). }
  rewrite editEntry_run, Hfind. cbn [snd]. rewrite Htags.
  set (w2 := chooseFile file _).
  assert (Hfiles : files (form w2) = file :: []) by reflexivity.
  assert (Hstored : stored w2 = stored w) by reflexivity.
  assert (Hcur : currentEntryId w2 = Some (Number_toString (id x)))
    by reflexivity.
  assert (Htitle2 : titleInput (form w2) = title x) by reflexivity.
  assert (Htags2 : tagsInput (form w2) = String.concat ", " l) by reflexivity.
  assert (Hform : form_accepted w2 file = true).
  { unfold form_accepted. rewrite Htitle2, Htitle, Htype. simpl.
    apply negb_true_iff, Z.ltb_ge. exact Hsize. }
  rewrite (handleUpload_save_run now w2 file [] data Hfiles Hform Hdata), Hcur.
  cbn [string_truthy JsNumber.parseInt_of].
  rewrite Number_toString_truthy, parseInt_Number_toString.
  unfold updateEntry_numbered, updateEntry.
  rewrite (updateEntryInLocalStorage_present
             (mkEntry (id x) (uploadFields w2 file data now)) w2 j x);
    [| now rewrite Hstored | reflexivity
     | intros k y Hk Hy; rewrite Hstored in Hy; exact (Hfirst k y Hk Hy)].
  eexists _, _. split; [reflexivity|].
  cbn [saved]. rewrite Hstored.
  change (stored (set_currentEntryId None
                    (set_form emptyForm
                       (add_toast _
                          (set_localStorage (Some ?l0) _)))))
    with l0.
  split; [apply list_lookup_insert_eq; eapply lookup_lt_Some; exact Hj|].
  split; [reflexivity|]. split; [reflexivity|].
  split; [cbn [tags fields_of uploadFields]; rewrite Htags2;
          now rewrite parseTags_concat|].
  split; [apply length_insert|].
  intros k Hk. apply list_lookup_insert_ne. congruence.
Qed.

Lemma edit_then_save_keeps_title_and_tags_witness :
  stored sampleWorld !! O = Some sampleReport
  /\ tags sampleReport = Some ["Work"; "URGENT"]
  /\ forallb clean_tag ["Work"; "URGENT"] = true
  /\ JsString.truthy (JsString.trim (title sampleReport)) = true
  /\ property_truthy (ALLOWED_TYPES_get (File.type smallPdf)) = true
  /\ File.size smallPdf <= MAX_FILE_SIZE
  /\ File.content smallPdf = Some "data:application/pdf;base64,JVBERi0y"
  /\ exists w' e',
       handleUpload 1717236000000
         (chooseFile smallPdf
            (snd (editEntry (Number_toString (id sampleReport)) sampleWorld)))
       = (Ok tt, w')
       /\ stored w' !! O = Some e'
       /\ id e' = id sampleReport
       /\ title e' = JsString.trim (title sampleReport)
       /\ tags e' = Some ["Work"; "URGENT"]
       /\ length (stored w') = length (stored sampleWorld)
       /\ forall k, k <> O -> stored w' !! k = stored sampleWorld !! k.
Proof.
  assert (Hsize : File.size smallPdf <= MAX_FILE_SIZE)
    by (vm_compute; discriminate).
  repeat (split; [reflexivity|]). split; [exact Hsize|].
  split; [reflexivity|].
  apply (edit_then_save_keeps_title_and_tags 1717236000000 sampleWorld
           sampleReport O ["Work"; "URGENT"] smallPdf
           "data:application/pdf;base64,JVBERi0y");
    try reflexivity; [|exact Hsize].
  intros k y Hk. lia.
Defined.

(** X12. [editEntry] for an id that no stored record has shows that the
    entry was not found and starts no edit: the edit in progress, the form
    and the stored item are as before. *)
Theorem editEntry_not_found (id_arg : string) (w : world) :
  (forall e, In e (stored w) ->
             JsNumber.strict_eq (id e) (JsNumber.parseInt id_arg) = false) ->
  exists w',
    editEntry id_arg w = (Ok tt, w')
    /\ toasts w' = toasts w ++ [mkToast "Error" "Entry not found" "danger"]
    /\ currentEntryId w' = currentEntryId w
    /\ form w' = form w
    /\ localStorage w' = localStorage w.
Proof.
  intros Habsent. rewrite editEntry_run.
  assert (Hnone : List.find
                    (fun e => JsNumber.strict_eq (id e) (JsNumber.parseInt id_arg))
                    (stored w) = None).
  { destruct (List.find _ (stored w)) as [e|] eqn:Hf; [|reflexivity].
    apply find_some in Hf. destruct Hf as [Hin He].
    rewrite (Habsent e Hin) in He. discriminate. }
  rewrite Hnone. eexists. repeat split.
Qed.

Lemma editEntry_not_found_witness :
  (forall e, In e (stored sampleWorld) ->
             JsNumber.strict_eq (id e) (JsNumber.parseInt "abc") = false)
  /\ exists w',
       editEntry "abc" sampleWorld = (Ok tt, w')
       /\ toasts w'
          = toasts sampleWorld ++ [mkToast "Error" "Entry not found" "danger"]
       /\ currentEntryId w' = currentEntryId sampleWorld
       /\ form w' = form sampleWorld
       /\ localStorage w' = localStorage sampleWorld.
Proof.
  assert (H : forall e, In e (stored sampleWorld) ->
                        JsNumber.strict_eq (id e) (JsNumber.parseInt "abc") = false).
  { intros e _. reflexivity. }
  split; [exact H|]. exact (editEntry_not_found "abc" sampleWorld H).
Defined.

(** ** The list and the tag selector *)

Lemma keeps_all {A} (P : A -> Prop) (l kept : list A) :
  keeps P l kept -> (forall x, P x) -> kept = l.
Proof.
  induction 1 as [| x l kept HP _ IH | x l kept HP _ IH]; intros Hall.
  - reflexivity.
  - f_equal. now apply IH.
  - exfalso. apply HP, Hall.
Qed.

(** X13. Whatever the stored records and their dates are, [loadEntries]
    returns without throwing, shows no failure and leaves the stored item
    as it was; the records it displays are exactly the stored records that
    the three filters select, each as often as it is stored; and with an
    empty search and both filters on [all] these are all stored records. *)
Theorem loadEntries_shows_selected (w : world) :
  exists w' shown kept,
    loadEntries w = (Ok tt, w')
    /\ entriesList w' = Shown shown
    /\ localStorage w' = localStorage w
    /\ toasts w' = toasts w
    /\ keeps (selected (searchInput (bar w)) (typeFilter (bar w))
                       (tagFilter (bar w)))
             (stored w) kept
    /\ Permutation kept shown
    /\ (searchInput (bar w) = "" -> typeFilter (bar w) = "all" ->
        tagFilter (bar w) = "all" -> kept = stored w).
Proof.
  destruct (filterR_keeps
              (matchesAll (JsString.toLowerCase (searchInput (bar w)))
                          (typeFilter (bar w)) (tagFilter (bar w)))
              (selected (searchInput (bar w)) (typeFilter (bar w))
                        (tagFilter (bar w)))
              (stored w)
              (matchesAll_correct _ _ _)) as (kept & Hfilter & Hkeeps).
  exists (set_entriesList (Shown (JsArray.sort byDateDesc kept))
            (log_call GetItem (set_entriesList Loading w))),
    (JsArray.sort byDateDesc kept), kept.
  split; [|repeat split].
  - unfold loadEntries, try_catch, bind, modify, getAllEntries,
      getEntriesFromLocalStorage, getItem, get_world, lift, displayEntries, ret.
    simpl. fold (stored w). rewrite Hfilter. reflexivity.
  - assumption.
  - symmetry. apply sort_Permutation.
  - intros Hs Ht Hg. apply (keeps_all _ _ _ Hkeeps).
    intros e. rewrite Hs, Ht, Hg. repeat split; now left.
Qed.

Lemma lower_char_idem (c : ascii) :
  JsString.lower_char (JsString.lower_char c) = JsString.lower_char c.
Proof. destruct c as [[] [] [] [] [] [] [] []]; reflexivity. Qed.

Lemma toLowerCase_idem (s : string) :
  JsString.toLowerCase (JsString.toLowerCase s) = JsString.toLowerCase s.
Proof.
  induction s as [|c s IH]; [reflexivity|]. simpl.
  now rewrite lower_char_idem, IH.
Qed.

Lemma existsb_eqb_In (v : string) (l : list string) :
  existsb (String.eqb v) l = true <-> In v l.
Proof. apply has_In. Qed.

(** X14. [loadTags] keeps the selected tag when it is one of the tags of
    the new index, and puts the selector back on [all] when [all] was
    selected or when no stored record has the selected tag any more; a
    selected value that is a tag only up to case ends with no option
    selected.  The search text, the type filter and the stored item are
    left as they were. *)
Theorem loadTags_selection (w : world) :
  exists w' index,
    loadTags w = (Ok tt, w')
    /\ tagOptions (bar w') = "all" :: index
    /\ (In (tagFilter (bar w)) index -> tagFilter (bar w) <> "all" ->
        tagFilter (bar w') = tagFilter (bar w))
    /\ (tagFilter (bar w) = "all"
        \/ ~ In (JsString.toLowerCase (tagFilter (bar w))) index ->
        tagFilter (bar w') = "all")
    /\ (tagFilter (bar w) <> "all" -> ~ In (tagFilter (bar w)) index ->
        In (JsString.toLowerCase (tagFilter (bar w))) index ->
        tagFilter (bar w') = "")
    /\ searchInput (bar w') = searchInput (bar w)
    /\ typeFilter (bar w') = typeFilter (bar w)
    /\ localStorage w' = localStorage w.
Proof.
  destruct (collectTags_correct (stored w) JsSet.empty) as (s & Hs & _ & Hin).
  pose proof (sort_Permutation JsArray.defaultCompare (JsSet.toArray s)) as Hperm.
  set (index := JsArray.sort JsArray.defaultCompare (JsSet.toArray s)) in *.
  assert (Hmem : forall t, In t index <-> In t s).
  { intros t. split; intros H.
    - exact (Permutation_in _ Hperm H).
    - exact (Permutation_in _ (Permutation_sym Hperm) H). }
  assert (Hlow : forall t, In t s -> JsString.toLowerCase t = t).
  { intros t Ht. apply Hin in Ht. destruct Ht as [[] | (e & _ & l & tag & _ & _ & ->)].
    apply toLowerCase_idem. }
  set (cur := tagFilter (bar w)) in *.
  set (value := if negb (String.eqb cur "all")
                   && JsSet.has s (JsString.toLowerCase cur)
                then select_value ("all" :: index) cur else "all").
  exists (set_bar (mkBar (searchInput (bar w)) (typeFilter (bar w))
                         ("all" :: index) value)
            (log_call GetItem w)), index.
  split; [|split; [reflexivity|]].
  { unfold loadTags, try_catch, bind, modify, getAllEntries,
      getEntriesFromLocalStorage, getItem, get_world, lift, ret.
    simpl. fold (stored w). rewrite Hs. reflexivity. }
  cbn [bar set_bar tagFilter searchInput typeFilter localStorage log_call].
  split; [|split; [|split; [|repeat split]]].
  - intros Hidx Hne. unfold value.
    apply String.eqb_neq in Hne. rewrite Hne. cbn [negb andb].
    apply Hmem in Hidx. rewrite (Hlow cur Hidx).
    rewrite (proj2 (has_In s cur) Hidx).
    unfold select_value.
    assert (Hopt : existsb (String.eqb cur) ("all" :: index) = true).
    { apply existsb_eqb_In. right. now apply Hmem. }
    now rewrite Hopt.
  - intros [Hall | Hgone]; unfold value.
    + rewrite Hall. reflexivity.
    + destruct (JsSet.has s (JsString.toLowerCase cur)) eqn:Hhas.
      * apply has_In in Hhas. exfalso. apply Hgone. now apply Hmem.
      * now rewrite andb_false_r.
  - intros Hne Hnot Hlowin. unfold value.
    pose proof Hne as Hne'. apply String.eqb_neq in Hne'. rewrite Hne'.
    cbn [negb andb].
    rewrite (proj2 (has_In s _) (proj1 (Hmem _) Hlowin)).
    unfold select_value.
    destruct (existsb (String.eqb cur) ("all" :: index)) eqn:Hopt; [|reflexivity].
    apply existsb_eqb_In in Hopt. destruct Hopt as [Heq | Hidx].
    + exfalso. apply Hne. now symmetry.
    + contradiction.
Qed.

(** ** The calendar *)

Lemma doesDateHaveEntries_run (d : option Z) (w : world) :
  doesDateHaveEntries d w
  = (Ok (match stored w, d with
         | [], _ => false
         | _ :: _, None => false
         | _ :: _, Some t =>
             existsb (fun e : entry =>
                        String.eqb (JsString.split0 "T" (date e))
                                   (JsString.split0 "T" (JsDate.toISOString t)))
                     (stored w)
         end),
     log_call GetItem w).
Proof.
  unfold doesDateHaveEntries, try_catch, bind, getAllEntries,
    getEntriesFromLocalStorage, getItem, lift, ret, stored.
  simpl. destruct (localStorage w) as [[|e l]|]; try reflexivity.
  destruct d; reflexivity.
Qed.

(** X15. [doesDateHaveEntries] never throws and leaves the stored item as
    it was; it resolves to false when nothing is stored, and also when the
    date is invalid (the [RangeError] of [toISOString] is caught). *)
Theorem doesDateHaveEntries_never_throws (d : option Z) (w : world) :
  exists b w',
    doesDateHaveEntries d w = (Ok b, w')
    /\ localStorage w' = localStorage w
    /\ (stored w = [] -> b = false)
    /\ (d = None -> b = false).
Proof.
  rewrite doesDateHaveEntries_run. eexists _, _. split; [reflexivity|].
  split; [reflexivity|]. split.
  - intros ->. reflexivity.
  - intros ->. now destruct (stored w).
Qed.

Lemma digit_char_not_T (k : Z) :
  0 <= k <= 9 -> Ascii.eqb (JsDate.digit_char k) "T" = false.
Proof. intros Hk. digit_cases k. Qed.

Lemma has_char_T_pad (w : nat) (v : Z) (acc : string) :
  has_char "T" (JsDate.pad w v acc) = has_char "T" acc.
Proof.
  revert v acc. induction w as [|w IH]; intros v acc; [reflexivity|].
  cbn [JsDate.pad]. rewrite IH. cbn [has_char].
  now rewrite digit_char_not_T by euclid.
Qed.

Lemma has_char_T_iso_date (t : Z) : has_char "T" (JsDate.iso_date t) = false.
Proof.
  unfold JsDate.iso_date.
  destruct (JsDate.civil_from_days (t / JsDate.msPerDay)) as [[y m] d].
  rewrite !has_char_app.
  assert (Hy : has_char "T" (JsDate.year_string y) = false).
  { unfold JsDate.year_string.
    destruct ((0 <=? y) && (y <=? 9999)); [apply has_char_T_pad|].
    cbn [has_char]. rewrite has_char_T_pad. now destruct (y <? 0). }
  rewrite Hy, !has_char_T_pad. reflexivity.
Qed.

Lemma split0_toISOString (t : Z) :
  JsString.split0 "T" (JsDate.toISOString t) = JsDate.iso_date t.
Proof.
  unfold JsString.split0, JsDate.toISOString.
  change ("T" ++ JsDate.iso_time t ++ "Z")%string
    with (String "T" (JsDate.iso_time t ++ "Z")).
  now rewrite split_app_sep by apply has_char_T_iso_date.
Qed.

Lemma iso_date_same_day (t1 t2 : Z) :
  Z.abs t1 <= JsDate.maxTime -> Z.abs t2 <= JsDate.maxTime ->
  (JsDate.iso_date t1 = JsDate.iso_date t2
   <-> t1 / JsDate.msPerDay = t2 / JsDate.msPerDay).
Proof.
  intros H1 H2. split.
  - intros Heq.
    assert (Hmid : forall t, Z.abs t <= JsDate.maxTime ->
              JsDate.toISOString (t / JsDate.msPerDay * JsDate.msPerDay)
              = (JsDate.iso_date t ++ "T00:00:00.000Z")%string
              /\ Z.abs (t / JsDate.msPerDay * JsDate.msPerDay) <= JsDate.maxTime).
    { intros t Ht. split.
      - unfold JsDate.toISOString, JsDate.iso_date, JsDate.iso_time.
        rewrite Z.div_mul, Z.mod_mul by (unfold JsDate.msPerDay; lia).
        reflexivity.
      - unfold JsDate.maxTime, JsDate.msPerDay in *. euclid. }
    destruct (Hmid t1 H1) as [Hs1 Hb1]. destruct (Hmid t2 H2) as [Hs2 Hb2].
    pose proof (parse_toISOString _ Hb1) as Hp1.
    pose proof (parse_toISOString _ Hb2) as Hp2.
    rewrite Hs1, Heq, <- Hs2, Hp2 in Hp1. injection Hp1 as Hp1.
    unfold JsDate.msPerDay in *. lia.
  - intros Heq. unfold JsDate.iso_date. now rewrite Heq.
Qed.

(** X16. For stored records whose dates were written by [handleUpload],
    the value that [doesDateHaveEntries] resolves to for a valid date is
    true exactly when a record was written on the UTC calendar day of that
    date: the days are compared in UTC, not in local time. *)
Theorem doesDateHaveEntries_same_utc_day (t : Z) (w : world) :
  Z.abs t <= JsDate.maxTime ->
  Forall (fun e => exists te, written_at e te) (stored w) ->
  exists b w',
    doesDateHaveEntries (Some t) w = (Ok b, w')
    /\ (b = true <->
        exists e te, In e (stored w) /\ written_at e te
                     /\ te / JsDate.msPerDay = t / JsDate.msPerDay).
Proof.
  intros Ht Hwritten. rewrite doesDateHaveEntries_run.
  eexists _, _. split; [reflexivity|].
  rewrite Forall_forall in Hwritten.
  assert (Hmain :
    existsb (fun e : entry =>
               String.eqb (JsString.split0 "T" (date e))
                          (JsString.split0 "T" (JsDate.toISOString t)))
            (stored w) = true
    <-> exists e te, In e (stored w) /\ written_at e te
                     /\ te / JsDate.msPerDay = t / JsDate.msPerDay).
  { rewrite existsb_exists. split.
    - intros (e & He & Heq). apply String.eqb_eq in Heq.
      destruct (Hwritten e (proj2 (list_elem_of_In _ _) He)) as (te & Hte & Hdate).
      exists e, te. split; [assumption|]. split; [split; assumption|].
      rewrite Hdate, !split0_toISOString in Heq.
      now apply iso_date_same_day.
    - intros (e & te & He & [Hte Hdate] & Hday). exists e. split; [assumption|].
      apply String.eqb_eq. rewrite Hdate, !split0_toISOString.
      now apply iso_date_same_day. }
  destruct (stored w) as [|e0 l] eqn:Hst; [|exact Hmain].
  split; [discriminate|]. intros (e & te & [] & _).
Qed.

Lemma doesDateHaveEntries_same_utc_day_witness :
  Z.abs 1704239999000 <= JsDate.maxTime
  /\ Forall (fun e => exists te, written_at e te) (stored sampleWorld)
  /\ exists b w',
       doesDateHaveEntries (Some 1704239999000) sampleWorld = (Ok b, w')
       /\ (b = true <->
           exists e te, In e (stored sampleWorld) /\ written_at e te
                        /\ te / JsDate.msPerDay = 1704239999000 / JsDate.msPerDay).
Proof.
  assert (Ht : Z.abs 1704239999000 <= JsDate.maxTime)
    by (unfold JsDate.maxTime; lia).
  assert (Hw : Forall (fun e => exists te, written_at e te) (stored sampleWorld)).
  { repeat constructor.
    - exists 1704103200000. split; [unfold JsDate.maxTime; lia | reflexivity].
    - exists 1704186000000. split; [unfold JsDate.maxTime; lia | reflexivity]. }
  split; [exact Ht|]. split; [exact Hw|].
  exact (doesDateHaveEntries_same_utc_day 1704239999000 sampleWorld Ht Hw).
Defined.

Lemma civil_from_days_inj (z1 z2 : Z) :
  JsDate.civil_from_days z1 = JsDate.civil_from_days z2 -> z1 = z2.
Proof.
  intros Heq.
  pose proof (days_from_civil_from_days z1) as H1.
  pose proof (days_from_civil_from_days z2) as H2.
  rewrite Heq in H1.
  destruct (JsDate.civil_from_days z2) as [[y m] d].
  destruct H1 as [H1 _]. destruct H2 as [H2 _]. congruence.
Qed.

(** X17. [isToday] holds for a valid date exactly when the date and the
    current time fall on the same local calendar day, whatever the times of
    day; it fails for an invalid date. *)
Theorem isToday_same_local_day (tz today : Z) (d : option Z) :
  isToday tz today d = true
  <-> exists t, d = Some t /\ JsDate.local_day tz t = JsDate.local_day tz today.
Proof.
  unfold isToday. destruct d as [t|].
  - unfold JsDate.getDate, Date_getMonth, Date_getFullYear.
    split.
    + intros H. exists t. split; [reflexivity|].
      apply civil_from_days_inj.
      destruct (JsDate.civil_from_days (JsDate.local_day tz t)) as [[y m] dd].
      destruct (JsDate.civil_from_days (JsDate.local_day tz today))
        as [[y' m'] dd'].
      apply andb_true_iff in H. destruct H as [H Hy].
      apply andb_true_iff in H. destruct H as [Hd Hm].
      apply Z.eqb_eq in Hy, Hm, Hd. f_equal; [f_equal|]; lia.
    + intros (t' & [= <-] & Heq). rewrite Heq.
      destruct (JsDate.civil_from_days (JsDate.local_day tz today))
        as [[y' m'] dd'].
      now rewrite !Z.eqb_refl.
  - split; [discriminate|]. intros (t & [=] & _).
Qed.

Lemma getDate_bounds (tz t : Z) : 1 <= JsDate.getDate tz t <= 31.
Proof.
  unfold JsDate.getDate.
  pose proof (days_from_civil_from_days (JsDate.local_day tz t)) as H.
  destruct (JsDate.civil_from_days (JsDate.local_day tz t)) as [[y m] d]. lia.
Qed.

(** X18. For a month whose first and last day are valid dates, the cells
    that [renderCalendar] writes (the end of the previous month, the days
    of the month, the start of the next month) fill whole weeks: their
    number is a multiple of 7, with fewer than 7 cells before the days of
    the month and fewer than 7 after them. *)
Theorem renderCalendar_fills_whole_weeks (tz year month t1 t2 : Z) :
  JsDate.local_midnight tz year month 1 = Some t1 ->
  JsDate.local_midnight tz year (month + 1) 0 = Some t2 ->
  Z.of_nat (length (calendarLeading tz year month)
            + length (renderCalendar tz year month)
            + length (calendarTrailing tz year month)) mod 7 = 0
  /\ (length (calendarLeading tz year month) < 7)%nat
  /\ (length (calendarTrailing tz year month) < 7)%nat.
Proof.
  intros H1 H2.
  unfold calendarLeading, calendarTrailing, renderCalendar.
  rewrite H1, H2. cbn [option_map].
  rewrite !length_map, !length_seq.
  pose proof (getDate_bounds tz t2) as Hdim.
  set (dim := JsDate.getDate tz t2) in *.
  assert (Hfd : 0 <= Date_getDay tz t1 < 7) by (unfold Date_getDay; euclid).
  set (fd := Date_getDay tz t1) in *.
  set (rem := if (fd + dim) mod 7 =? 0 then 0 else 7 - (fd + dim) mod 7).
  assert (Hrem : 0 <= rem < 7 /\ (fd + dim + rem) mod 7 = 0).
  { unfold rem. destruct ((fd + dim) mod 7 =? 0) eqn:Hz.
    - apply Z.eqb_eq in Hz. split; [lia|]. now rewrite Z.add_0_r.
    - apply Z.eqb_neq in Hz. euclid. }
  destruct Hrem as [Hrem Hmod].
  split; [|split; lia].
  rewrite !Nat2Z.inj_add, !Z2Nat.id by lia. exact Hmod.
Qed.

Lemma renderCalendar_fills_whole_weeks_witness :
  JsDate.local_midnight kathmandu 2024 1 1 = Some 1706724900000
  /\ JsDate.local_midnight kathmandu 2024 (1 + 1) 0 = Some 1709144100000
  /\ Z.of_nat (length (calendarLeading kathmandu 2024 1)
               + length (renderCalendar kathmandu 2024 1)
               + length (calendarTrailing kathmandu 2024 1)) mod 7 = 0
  /\ (length (calendarLeading kathmandu 2024 1) < 7)%nat
  /\ (length (calendarTrailing kathmandu 2024 1) < 7)%nat.
Proof.
  split; [reflexivity|]. split; [reflexivity|].
  exact (renderCalendar_fills_whole_weeks kathmandu 2024 1
           1706724900000 1709144100000 eq_refl eq_refl).
Defined.

Example calendar_february_2024 :
  calendarLeading 0 2024 1 = [Some 28; Some 29; Some 30; Some 31]
  /\ map dayOfMonth (renderCalendar 0 2024 1)
     = map Z.of_nat (seq 1 29)
  /\ calendarTrailing 0 2024 1 = [Some 1; Some 2]
  /\ isToday 0 1709210000000 (JsDate.local_midnight 0 2024 1 29) = true
  /\ isToday 0 1709210000000 (JsDate.local_midnight 0 2024 1 28) = false.
Proof. repeat split. Qed.

(** ** Sessions *)

Lemma loadEntries_run (w : world) :
  exists kept,
    keeps (selected (searchInput (bar w)) (typeFilter (bar w)) (tagFilter (bar w)))
          (stored w) kept
    /\ loadEntries w
       = (Ok tt, set_entriesList (Shown (JsArray.sort byDateDesc kept))
                   (log_call GetItem (set_entriesList Loading w))).
Proof.
  destruct (filterR_keeps
              (matchesAll (JsString.toLowerCase (searchInput (bar w)))
                          (typeFilter (bar w)) (tagFilter (bar w)))
              (selected (searchInput (bar w)) (typeFilter (bar w))
                        (tagFilter (bar w)))
              (stored w)
              (matchesAll_correct _ _ _)) as (kept & Hfilter & Hkeeps).
  exists kept. split; [assumption|].
  unfold loadEntries, try_catch, bind, modify, getAllEntries,
    getEntriesFromLocalStorage, getItem, get_world, lift, displayEntries, ret.
  simpl. fold (stored w). rewrite Hfilter. reflexivity.
Qed.

Lemma loadTags_keeps_store (w : world) :
  localStorage (snd (loadTags w)) = localStorage w.
Proof.
  destruct (collectTags_correct (stored w) JsSet.empty) as (s & Hs & _).
  unfold loadTags, try_catch, bind, modify, getAllEntries,
    getEntriesFromLocalStorage, getItem, get_world, lift, ret.
  simpl. fold (stored w). rewrite Hs. reflexivity.
Qed.

Lemma keeps_NoDup_map {A B} (f : A -> B) (P : A -> Prop) (l kept : list A) :
  keeps P l kept -> NoDup (map f l) -> NoDup (map f kept).
Proof.
  induction 1 as [| x l kept HP Hk IH | x l kept HP Hk IH]; simpl; intros Hnd.
  - constructor.
  - apply NoDup_cons in Hnd. destruct Hnd as [Hx Hnd].
    apply NoDup_cons. split; [|auto].
    intros Hin. apply Hx. apply list_elem_of_In.
    apply list_elem_of_In, in_map_iff in Hin. destruct Hin as (y & Hy & Hin).
    apply in_map_iff. exists y. split; [assumption|].
    exact (proj1 (proj1 (keeps_In _ _ _ Hk y) Hin)).
  - apply NoDup_cons in Hnd. destruct Hnd as [_ Hnd]. auto.
Qed.

Lemma step_keeps_well_formed (ev : event) (w : world) :
  event_ok ev -> well_formed w -> well_formed (step ev w).
Proof.
  intros Hok Hw. destruct ev as [f | s t g | now | i | c i |]; cbn [step].
  - exact Hw.
  - exact Hw.
  - now apply handleUpload_keeps_store_well_formed.
  - unfold well_formed. rewrite editEntry_run.
    destruct (List.find _ (stored w)); exact Hw.
  - unfold deleteEntry. destruct c; cbn [negb]; [|exact Hw].
    unfold try_catch, bind, removeEntry, showToast.
    rewrite removeEntryFromLocalStorage_run. cbn [snd].
    destruct Hw as [Hd Hn]. split.
    + apply forallb_filter. exact Hd.
    + apply NoDup_map_filter. exact Hn.
  - destruct (loadEntries_run w) as (kept & _ & Hrun).
    unfold well_formed.
    rewrite (stored_eq _ w); [exact Hw|].
    rewrite loadTags_keeps_store, Hrun. reflexivity.
Qed.

Lemma session_keeps_well_formed (evs : list event) (w : world) :
  Forall event_ok evs -> well_formed w -> well_formed (session evs w).
Proof.
  unfold session. revert w.
  induction evs as [|ev evs IH]; intros w Hok Hw; [exact Hw|].
  inversion Hok as [|? ? Hev Hrest]; subst. simpl.
  apply IH; [assumption|]. now apply step_keeps_well_formed.
Qed.

(** X19. In every state that the page reaches from a fresh start by
    filling the form, setting the filters, saving (at valid times of the
    clock), opening records for editing, deleting and reloading, the dates
    of the stored records are timestamps and their ids are pairwise
    distinct; so the list that [loadEntries] then displays is ordered from
    the newest date to the oldest, shows no id twice and shows stored
    records only. *)
Theorem session_list_sorted_distinct (evs : list event) :
  Forall event_ok evs ->
  well_formed (session evs freshWorld)
  /\ exists w' shown,
       loadEntries (session evs freshWorld) = (Ok tt, w')
       /\ entriesList w' = Shown shown
       /\ StronglySorted newest_first shown
       /\ NoDup (map id shown)
       /\ forall e, In e shown -> In e (stored (session evs freshWorld)).
Proof.
  intros Hok.
  assert (Hstart : well_formed freshWorld).
  { split; [reflexivity | constructor]. }
  pose proof (session_keeps_well_formed evs freshWorld Hok Hstart) as Hw.
  split; [exact Hw|].
  set (w := session evs freshWorld) in *.
  destruct Hw as [Hdated Hids].
  destruct (loadEntries_run w) as (kept & Hkeeps & Hrun).
  pose proof (sort_Permutation byDateDesc kept) as Hperm.
  eexists _, _. split; [exact Hrun|]. split; [reflexivity|].
  split; [|split].
  - apply (sort_StronglySorted byDateDesc (fun e => dated e = true) newest_first
             newest_first_trans byDateDesc_after byDateDesc_before).
    rewrite Forall_forall. intros e He. apply list_elem_of_In in He.
    apply (keeps_In _ _ _ Hkeeps) in He. destruct He as [He _].
    rewrite forallb_forall in Hdated. now apply Hdated.
  - rewrite (Permutation_map id Hperm).
    exact (keeps_NoDup_map id _ _ _ Hkeeps Hids).
  - intros e He. apply (Permutation_in _ Hperm) in He.
    exact (proj1 (proj1 (keeps_In _ _ _ Hkeeps e) He)).
Qed.

Lemma session_list_sorted_distinct_witness :
  Forall event_ok
    [FillForm (mkForm [smallPdf] " Report " "first" "Work, URGENT");
     ClickUpload 1704103200000;
     FillForm (mkForm [smallPdf] "Minutes" "" "");
     ClickUpload 1704186000000;
     ClickEdit "1";
     FillForm (mkForm [smallPdf] "Report" "second" "Work");
     ClickUpload 1717236000000;
     ClickDelete true "2";
     Reload]
  /\ well_formed
       (session
          [FillForm (mkForm [smallPdf] " Report " "first" "Work, URGENT");
           ClickUpload 1704103200000;
           FillForm (mkForm [smallPdf] "Minutes" "" "");
           ClickUpload 1704186000000;
           ClickEdit "1";
           FillForm (mkForm [smallPdf] "Report" "second" "Work");
           ClickUpload 1717236000000;
           ClickDelete true "2";
           Reload] freshWorld).
Proof.
  assert (Hok : Forall event_ok
    [FillForm (mkForm [smallPdf] " Report " "first" "Work, URGENT");
     ClickUpload 1704103200000;
     FillForm (mkForm [smallPdf] "Minutes" "" "");
     ClickUpload 1704186000000;
     ClickEdit "1";
     FillForm (mkForm [smallPdf] "Report" "second" "Work");
     ClickUpload 1717236000000;
     ClickDelete true "2";
     Reload]).
  { repeat (apply Forall_cons_2;
              [cbn; unfold JsDate.maxTime; first [exact I | lia]|]).
    apply Forall_nil_2. }
  split; [exact Hok|].
  exact (proj1 (session_list_sorted_distinct _ Hok)).
Defined.

Example session_ex :
  stored
    (session
       [FillForm (mkForm [smallPdf] " Report " "first" "Work, URGENT");
        ClickUpload 1704103200000;
        FillForm (mkForm [smallPdf] "Minutes" "" "");
        ClickUpload 1704186000000;
        ClickEdit "1";
        FillForm (mkForm [smallPdf] "Report" "second" "Work");
        ClickUpload 1717236000000;
        ClickDelete true "2";
        Reload] freshWorld)
  = [mkEntry 1 (mkFields "Report" (Some "second") (Some ["Work"])
                  "report-v2.pdf" (Some "pdf") "document"
                  "data:application/pdf;base64,JVBERi0y"
                  "2024-06-01T10:00:00.000Z")].
Proof. reflexivity. Qed.

(** ** Lookups, and saves during an edit *)

(** X20. [getEntryById] returns without throwing and leaves the stored item
    as it was.  What it returns is a stored record whose id is the number
    that [parseInt] reads in the argument, the first one in the store; and
    it returns [undefined] exactly when no stored record has that id, in
    particular when the argument holds no number. *)
Theorem getEntryById_finds_first (id_arg : string) (w : world) :
  exists r w',
    getEntryById id_arg w = (Ok r, w')
    /\ localStorage w' = localStorage w
    /\ (forall e, r = Some e ->
          exists j, stored w !! j = Some e
                    /\ JsNumber.parseInt id_arg = Some (id e)
                    /\ forall k y, (k < j)%nat -> stored w !! k = Some y ->
                                   id y <> id e)
    /\ (r = None <->
        forall e, In e (stored w) -> JsNumber.parseInt id_arg <> Some (id e))
    /\ (JsNumber.parseInt id_arg = None -> r = None).
Proof.
  rewrite getEntryById_run. eexists _, _. split; [reflexivity|].
  split; [reflexivity|].
  set (p := fun e => JsNumber.strict_eq (id e) (JsNumber.parseInt id_arg)).
  assert (Hp : forall e, p e = true <-> JsNumber.parseInt id_arg = Some (id e)).
  { intros e. unfold p, JsNumber.strict_eq.
    destruct (JsNumber.parseInt id_arg) as [n|]; [|split; discriminate].
    rewrite Z.eqb_eq. split; [now intros -> | now intros [= ->]]. }
  split; [|split].
  - intros e He. generalize dependent e.
    induction (stored w) as [|a l IH]; intros e He; [discriminate|].
    simpl in He. destruct (p a) eqn:Hpa.
    + injection He as <-. exists O. split; [reflexivity|].
      split; [now apply Hp|]. intros k y Hk. lia.
    + destruct (IH e He) as (j & Hj & Hid & Hfirst).
      exists (S j). split; [exact Hj|]. split; [exact Hid|].
      intros [|k] y Hk Hy; simpl in Hy.
      * injection Hy as <-. intros Heq.
        assert (p a = true) by (apply Hp; now rewrite Heq). congruence.
      * apply (Hfirst k y); [lia | exact Hy].
  - split.
    + intros Hnone e He Heq.
      pose proof (find_none _ _ Hnone e He) as Hf.
      apply Hp in Heq. fold p in Hf. congruence.
    + intros Habsent. destruct (List.find p (stored w)) as [e|] eqn:Hf;
        [|reflexivity].
      apply find_some in Hf. destruct Hf as [Hin He].
      apply Hp in He. exfalso. exact (Habsent e Hin He).
  - intros Hnan. destruct (List.find p (stored w)) as [e|] eqn:Hf; [|reflexivity].
    apply find_some in Hf. destruct Hf as [_ He]. apply Hp in He. congruence.
Qed.

(** X21. While a record is being edited, a save neither adds nor removes a
    record and changes no id, whatever the form holds and whether the save
    goes through or not. *)
Theorem handleUpload_during_edit_keeps_ids (now : Z) (w : world) :
  string_truthy (currentEntryId w) = true ->
  map id (stored (snd (handleUpload now w))) = map id (stored w).
Proof.
  intros Hcur.
  unfold handleUpload, bind, get_world.
  destruct (files (form w)) as [|file rest]; [reflexivity|].
  destruct (JsString.truthy (JsString.trim (titleInput (form w))));
    [|reflexivity].
  destruct (property_truthy (ALLOWED_TYPES_get (File.type file)));
    [|reflexivity].
  destruct (MAX_FILE_SIZE <? File.size file); [reflexivity|].
  cbn [negb]. unfold try_catch, bind, readFileAsDataURL.
  destruct (File.content file) as [data|]; [|reflexivity].
  unfold ret. rewrite Hcur.
  destruct (JsNumber.parseInt_of (currentEntryId w)) as [n|];
    unfold updateEntry_numbered; [|reflexivity].
  unfold updateEntry. rewrite updateEntryInLocalStorage_run.
  destruct (JsArray.findIndex _ (stored w)) as [k|] eqn:Hk; [|reflexivity].
  destruct (findIndex_Some _ _ _ Hk) as (x & Hx & Hpx & _).
  apply Z.eqb_eq in Hpx.
  exact (map_id_insert_same (stored w) k x _ Hx Hpx).
Qed.

Lemma handleUpload_during_edit_keeps_ids_witness :
  string_truthy (currentEntryId editingReport) = true
  /\ map id (stored (snd (handleUpload 1717236000000 editingReport)))
     = map id (stored editingReport).
Proof.
  split; [reflexivity|].
  exact (handleUpload_during_edit_keeps_ids 1717236000000 editingReport eq_refl).
Defined.

Lemma inherited_name_lookup (key : string) :
  In key Object_prototype_names ->
  ALLOWED_TYPES_get key = Inherited
  /\ JsString.startsWith key "image/" = false
  /\ JsString.startsWith key "video/" = false.
Proof.
  unfold Object_prototype_names. simpl.
  intros H. repeat (destruct H as [<- | H]; [repeat split|]). destruct H.
Qed.

(** C7, as the code has it.  The type check reads [ALLOWED_TYPES[file.type]]
    through the prototype chain.  A file whose type is a name that every
    object inherits (such as [constructor]) has a type outside the allowed
    ones, and yet passes the check: when the title, the size and the reading
    are in order, the save is not rejected but reads the storage and asks
    it to write the file as a new record of category [document] without
    [fileType]; when the host accepts the write, the record is stored and
    the success message shown. *)
Theorem handleUpload_stores_inherited_type (fits : list entry -> bool)
    (now : Z) (w : world) (file : File.t) (rest : list File.t) (data : string) :
  files (form w) = file :: rest ->
  In (File.type file) Object_prototype_names ->
  JsString.truthy (JsString.trim (titleInput (form w))) = true ->
  File.size file <= MAX_FILE_SIZE ->
  File.content file = Some data ->
  string_truthy (currentEntryId w) = false ->
  ~ In (File.type file) allowed_content_types
  /\ exists f w',
       Quota.handleUpload fits now w = (Ok tt, w')
       /\ storageLog w'
          = storageLog w
            ++ [GetItem; SetItem (stored w ++ [mkEntry (next_id (stored w)) f])]
       /\ fileType f = None
       /\ type f = "document"
       /\ fileData f = data
       /\ (fits (stored w ++ [mkEntry (next_id (stored w)) f]) = true ->
           stored w' = stored w ++ [mkEntry (next_id (stored w)) f]
           /\ toasts w'
              = toasts w
                ++ [mkToast "Success" "File uploaded successfully" "success"]).
Proof.
  intros Hfiles Hname Htitle Hsize Hdata Hcur.
  destruct (inherited_name_lookup _ Hname) as (Hget & Himg & Hvid).
  split.
  { unfold allowed_content_types. apply own_property_None.
    unfold ALLOWED_TYPES_get in Hget.
    destruct (own_property (File.type file) ALLOWED_TYPES); [discriminate Hget|].
    reflexivity. }
  assert (Hform : form_accepted w file = true).
  { unfold form_accepted. rewrite Htitle, Hget. simpl.
    apply negb_true_iff, Z.ltb_ge. exact Hsize. }
  rewrite (quota_handleUpload_new_run fits now w file rest data
             Hfiles Hform Hdata Hcur).
  rewrite quota_addEntryToLocalStorage_run.
  exists (uploadFields w file data now).
  assert (Hfields : fileType (uploadFields w file data now) = None
                    /\ type (uploadFields w file data now) = "document"
                    /\ fileData (uploadFields w file data now) = data).
  { cbn [fileType type fileData uploadFields]. rewrite Hget, Himg, Hvid.
    repeat split. }
  destruct Hfields as (Hft & Hty & Hfd).
  destruct (fits _) eqn:Hfits.
  - eexists. split; [reflexivity|].
    split; [cbn; now rewrite <- app_assoc|].
    split; [exact Hft|]. split; [exact Hty|]. split; [exact Hfd|].
    intros _. split; reflexivity.
  - eexists. split; [reflexivity|].
    split; [cbn; now rewrite <- app_assoc|].
    split; [exact Hft|]. split; [exact Hty|]. split; [exact Hfd|].
    discriminate.
Qed.

Lemma handleUpload_stores_inherited_type_witness :
  files (form (uploading constructorFile freshWorld)) = constructorFile :: []
  /\ In (File.type constructorFile) Object_prototype_names
  /\ JsString.truthy
       (JsString.trim (titleInput (form (uploading constructorFile freshWorld))))
     = true
  /\ File.size constructorFile <= MAX_FILE_SIZE
  /\ File.content constructorFile = Some "data:;base64,AA=="
  /\ string_truthy (currentEntryId (uploading constructorFile freshWorld)) = false
  /\ ~ In (File.type constructorFile) allowed_content_types
  /\ exists f w',
       Quota.handleUpload unlimited 0 (uploading constructorFile freshWorld)
       = (Ok tt, w')
       /\ storageLog w'
          = storageLog (uploading constructorFile freshWorld)
            ++ [GetItem;
                SetItem (stored (uploading constructorFile freshWorld)
                         ++ [mkEntry
                               (next_id (stored (uploading constructorFile
                                                   freshWorld))) f])]
       /\ fileType f = None
       /\ type f = "document"
       /\ fileData f = "data:;base64,AA=="
       /\ (unlimited
             (stored (uploading constructorFile freshWorld)
              ++ [mkEntry (next_id (stored (uploading constructorFile freshWorld)))
                    f]) = true ->
           stored w'
           = stored (uploading constructorFile freshWorld)
             ++ [mkEntry (next_id (stored (uploading constructorFile freshWorld)))
                   f]
           /\ toasts w'
              = toasts (uploading constructorFile freshWorld)
                ++ [mkToast "Success" "File uploaded successfully" "success"]).
Proof.
  assert (Hsize : File.size constructorFile <= MAX_FILE_SIZE)
    by (vm_compute; discriminate).
  assert (Hname : In (File.type constructorFile) Object_prototype_names)
    by (left; reflexivity).
  split; [reflexivity|]. split; [exact Hname|]. split; [reflexivity|].
  split; [exact Hsize|]. split; [reflexivity|]. split; [reflexivity|].
  exact (handleUpload_stores_inherited_type unlimited 0
           (uploading constructorFile freshWorld) constructorFile []
           "data:;base64,AA==" eq_refl Hname eq_refl Hsize eq_refl eq_refl).
Defined.

Example handleUpload_constructor_file :
  stored (snd (handleUpload 0 (uploading constructorFile freshWorld)))
  = [mkEntry 1 (mkFields "Report" (Some "") (Some []) "x.bin" None "document"
                  "data:;base64,AA==" "1970-01-01T00:00:00.000Z")]
  /\ toasts (snd (handleUpload 0 (uploading constructorFile freshWorld)))
     = [mkToast "Success" "File uploaded successfully" "success"].
Proof. split; reflexivity. Qed.
